(** * ObjectDrawer: the command pipeline, embedded from the C++ sources

    The development follows the repository file by file:
    - [Utility]            geometry predicates           (Utility.cpp)
    - shapes               Line/Triangle/Rectangle/Square (LineShape.cpp, ...)
    - [ShapeRepository]    the name-keyed registry        (ShapeRepository.cpp)
    - [CommandParser]      the tokenizer                  (CommandParser.cpp)
    - [CommandDispatcher]  the handlers and batch runner  (CommandDispatcher.cpp)

    A C++ [double] is a primitive binary64 float, so that every predicate
    below runs on the same values the program sees (NaN, infinities and
    signed zeros included).  A [QString] is a [string]; a
    [QMap<QString, T>] is a [gmap string T]. *)

From Stdlib Require Import Floats SpecFloat ZArith Ascii String DecimalString.
From stdpp Require Import gmap strings list.

Set Warnings "-inexact-float".

Open Scope string_scope.

(** ** QPointF *)

Record QPointF : Type := Pt { px : float; py : float }.

(** ** Qt and standard-library helpers on doubles *)

(** [qFabs] *)
Definition qFabs (v : float) : float := abs v.

(** [qMin(a, b)] is [(a < b) ? a : b]; [qMax(a, b)] is [(a < b) ? b : a]. *)
Definition qMin (a b : float) : float := if (a <? b)%float then a else b.
Definition qMax (a b : float) : float := if (a <? b)%float then b else a.

(** [std::min(a, b)] is [(b < a) ? b : a]; [std::max(a, b)] is [(a < b) ? b : a]. *)
Definition std_min (a b : float) : float := if (b <? a)%float then b else a.
Definition std_max (a b : float) : float := if (a <? b)%float then b else a.

(** [qFuzzyCompare(double, double)] of QtGlobal:
    [qAbs(p1 - p2) * 1000000000000. <= qMin(qAbs(p1), qAbs(p2))]. *)
Definition qFuzzyCompare (p1 p2 : float) : bool :=
  (abs (p1 - p2) * 1000000000000 <=? qMin (abs p1) (abs p2))%float.

(** ** std::sort on a short range

    For ranges of at most sixteen elements [std::sort] is the insertion sort
    below (libstdc++'s [__insertion_sort]): an element smaller than the first
    one is moved to the front, any other one is shifted left past the
    elements it compares smaller than ([__unguarded_linear_insert]).  The
    sorted prefix is scanned from its right end, hence the reversed list. *)

Section StdSort.
Context {A : Type} (comp : A -> A -> bool).

Fixpoint unguarded_linear_insert (val : A) (rprefix : list A) : list A :=
  match rprefix with
  | [] => [val]
  | next :: rest =>
      if comp val next then next :: unguarded_linear_insert val rest
      else val :: rprefix
  end.

Definition insertion_step (prefix : list A) (val : A) : list A :=
  match prefix with
  | [] => [val]
  | first :: _ =>
      if comp val first then val :: prefix
      else rev (unguarded_linear_insert val (rev prefix))
  end.

Definition std_sort (l : list A) : list A := fold_left insertion_step l [].
End StdSort.

(** ** Utility.cpp *)

Module Utility.

(** Default tolerances of Utility.h. *)
Definition eps_default : float := 1e-6.
Definition eps_diagonal : float := 1e-9.

Definition sub (a b : QPointF) : QPointF :=
  Pt (px a - px b) (py a - py b).

Definition dot (a b : QPointF) : float :=
  (px a * px b + py a * py b)%float.

Definition dist2 (a b : QPointF) : float :=
  let v := sub a b in
  (px v * px v + py v * py v)%float.

Definition areCollinear (a b c : QPointF) (eps : float) : bool :=
  let ab := sub b a in
  let ac := sub c a in
  let cross := (px ab * py ac - py ab * px ac)%float in
  (qFabs cross <? eps)%float.

Definition isRightAngle (a b c : QPointF) (eps : float) : bool :=
  let v1 := sub a b in
  let v2 := sub c b in
  (qFabs (dot v1 v2) <? eps)%float.

(** The comparator given to [std::sort]: by x, then by y. *)
Definition pointLess (a b : QPointF) : bool :=
  if (px a =? px b)%float then (py a <? py b)%float else (px a <? px b)%float.

(** The four sorted points [A], [B], [C], [D] of [isRectangle] and
    [isSquare]; the sort keeps the length, so the last case never runs. *)
Definition sorted4 (p1 p2 p3 p4 : QPointF)
  : QPointF * QPointF * QPointF * QPointF :=
  match std_sort pointLess [p1; p2; p3; p4] with
  | [A; B; C; D] => (A, B, C, D)
  | _ => (p1, p2, p3, p4)
  end.

Definition isRectangle (p1 p2 p3 p4 : QPointF) (eps : float) : bool :=
  let '(A, B, C, D) := sorted4 p1 p2 p3 p4 in
  let rightA := isRightAngle B A C eps || isRightAngle C A B eps in
  let rightD := isRightAngle B D C eps || isRightAngle C D B eps in
  let dAB := dist2 A B in
  let dCD := dist2 C D in
  let dAC := dist2 A C in
  let dBD := dist2 B D in
  let oppEqual :=
    (qFabs (dAB - dCD) <? eps)%float && (qFabs (dAC - dBD) <? eps)%float in
  rightA && rightD && oppEqual.

Definition isSquare (p1 p2 p3 p4 : QPointF) (eps : float) : bool :=
  let '(A, B, C, D) := sorted4 p1 p2 p3 p4 in
  if negb (isRectangle A B C D eps) then false
  else
    let s1 := qMin (dist2 A B) (dist2 A C) in
    let s2 := qMin (dist2 D B) (dist2 D C) in
    (qFabs (s1 - s2) <? eps)%float && (eps <? s1)%float.

Definition isValidSquareDiagonal (d1 d2 : QPointF) (eps : float) : bool :=
  (eps <? dist2 d1 d2)%float.

End Utility.

(** ** QString helpers *)

Definition nl : string := String (ascii_of_nat 10) EmptyString.

Definition code (c : ascii) : nat := nat_of_ascii c.

(** [QChar::isSpace] on the Latin-1 range: tab, line feed, vertical tab, form
    feed, carriage return, space, next-line (0x85) and no-break space (0xA0). *)
Definition isSpace (c : ascii) : bool :=
  let n := code c in
  ((9 <=? n) && (n <=? 13) || (n =? 32) || (n =? 133) || (n =? 160))%nat.

(** The class [\s] of a QRegularExpression without the Unicode-properties
    option: the ASCII white space only. *)
Definition isRegexSpace (c : ascii) : bool :=
  let n := code c in
  ((9 <=? n) && (n <=? 13) || (n =? 32))%nat.

(** The class [\d]: the ASCII digits. *)
Definition isDigit (c : ascii) : bool :=
  let n := code c in
  ((48 <=? n) && (n <=? 57))%nat.

Fixpoint dropWhile {A : Type} (f : A -> bool) (l : list A) : list A :=
  match l with
  | [] => []
  | a :: l' => if f a then dropWhile f l' else l
  end.

Fixpoint span {A : Type} (f : A -> bool) (l : list A) : list A * list A :=
  match l with
  | [] => ([], [])
  | a :: l' =>
      if f a then let '(yes, rest) := span f l' in (a :: yes, rest)
      else ([], l)
  end.

Definition chars (s : string) : list ascii := list_ascii_of_string s.
Definition text (l : list ascii) : string := string_of_list_ascii l.

(** [QString::trimmed]: white space removed from both ends. *)
Definition trimmed (s : string) : string :=
  text (rev (dropWhile isSpace (rev (dropWhile isSpace (chars s))))).

(** [QString::isEmpty] *)
Definition isEmpty (s : string) : bool :=
  match s with
  | EmptyString => true
  | String _ _ => false
  end.

(** [QString::startsWith] *)
Definition startsWith (s prefix : string) : bool := String.prefix prefix s.

(** [QString::mid(1)]: the string without its first character. *)
Definition mid1 (s : string) : string :=
  match s with
  | EmptyString => EmptyString
  | String _ s' => s'
  end.

(** [QString::split(QRegularExpression("\\s+"), Qt::SkipEmptyParts)]: the
    maximal runs of characters that are not [\s].  [cur] is the run being
    read, in reverse. *)
Fixpoint splitLoop (cur : list ascii) (l : list ascii) : list string :=
  match l with
  | [] => match cur with [] => [] | _ => [text (rev cur)] end
  | c :: l' =>
      if isRegexSpace c then
        match cur with
        | [] => splitLoop [] l'
        | _ => text (rev cur) :: splitLoop [] l'
        end
      else splitLoop (c :: cur) l'
  end.

Definition splitWhitespace (s : string) : list string := splitLoop [] (chars s).

(** An [int] printed by [QString::arg(int)]: decimal digits. *)
Definition number (n : Z) : string := NilZero.string_of_int (Z.to_int n).

(** ** QString::toDouble on a decimal literal

    The parser hands [toDouble] only text matched by [-?\d+(?:\.\d+)?].  Qt
    converts it in the C locale to the nearest double, ties to even, and
    reports failure ([ok = false]) when the result overflows to infinity or
    when a literal with a non-zero digit underflows to zero.  The conversion
    below divides [mantissa * 2^shift] by [10^fraction_digits] with at least
    64 quotient bits, folds the remainder into a sticky bit and lets
    [binary_normalize] round once; infinity is its only result that is not
    finite. *)

Definition digitValue (c : ascii) : Z := Z.of_nat (code c) - 48.

Definition digitsValue (ds : list ascii) : Z :=
  fold_left (fun acc c => 10 * acc + digitValue c)%Z ds 0%Z.

Definition roundDecimal (mantissa : Z) (fraction_digits : nat) : float :=
  if (mantissa =? 0)%Z then 0%float
  else
    let den := (10 ^ Z.of_nat fraction_digits)%Z in
    let shift := Z.max 0 (64 + Z.log2 den - Z.log2 mantissa) in
    let num := Z.shiftl mantissa shift in
    let q := (num / den)%Z in
    let sticky := if (num mod den =? 0)%Z then 0%Z else 1%Z in
    SF2Prim (binary_normalize prec emax (2 * q + sticky) (- shift - 1) false).

(** The literal split at its sign and decimal point. *)
Definition toDouble (s : string) : option float :=
  let '(negative, body) :=
    match chars s with
    | "-"%char :: body => (true, body)
    | body => (false, body)
    end in
  let '(int_digits, rest) := span isDigit body in
  let frac_digits :=
    match rest with
    | "."%char :: ds => Some ds
    | [] => Some []
    | _ => None
    end in
  match int_digits, frac_digits with
  | [], _ | _, None => None
  | _ :: _, Some ds =>
      if negb (forallb isDigit ds) then None
      else
        let mantissa := digitsValue (int_digits ++ ds)%list in
        let d := roundDecimal mantissa (length ds) in
        if negb (is_finite d) then None
        else if is_zero d && negb (mantissa =? 0)%Z then None
        else Some (if negative then (- d)%float else d)
  end.

(** ** Outcomes of the fallible helpers

    The C++ helpers return [bool] and fill an output parameter and an error
    message; here they return the value or the message. *)

Inductive outcome (A : Type) : Type :=
  | Ok (value : A)
  | Err (errorMessage : string).
Arguments Ok {A} value.
Arguments Err {A} errorMessage.

(** ** CommandParser.h, CommandParser.cpp *)

Record Command : Type := mkCommand {
  name : string;
  args : gmap string string;
  coords : gmap string QPointF;
  errors : list string
}.

Module CommandParser.

(** One number of the coordinate pattern, [-?\d+(?:\.\d+)?]: the captured
    text and what follows it.  A point that no digit follows is left to the
    rest of the pattern, which then fails on it. *)
Definition matchNumber (l : list ascii) : option (list ascii * list ascii) :=
  let '(sign, l1) :=
    match l with
    | "-"%char :: l' => (["-"%char], l')
    | _ => ([], l)
    end in
  let '(ds, l2) := span isDigit l1 in
  match ds with
  | [] => None
  | _ :: _ =>
      match l2 with
      | "."%char :: l3 =>
          let '(fs, l4) := span isDigit l3 in
          match fs with
          | [] => Some ((sign ++ ds)%list, l2)
          | _ :: _ => Some ((sign ++ ds ++ "."%char :: fs)%list, l4)
          end
      | _ => Some ((sign ++ ds)%list, l2)
      end
  end.

(** The anchored pattern
    [^\{\s*(-?\d+(?:\.\d+)?)\s*,\s*(-?\d+(?:\.\d+)?)\s*\}$] and its two
    captures.  The character classes of the pattern are disjoint, so one
    pass from the left decides the match; [$] also matches before a final
    line feed. *)
Definition matchCoords (token : string) : option (string * string) :=
  match chars token with
  | "{"%char :: l0 =>
      match matchNumber (dropWhile isRegexSpace l0) with
      | None => None
      | Some (c1, l1) =>
          match dropWhile isRegexSpace l1 with
          | ","%char :: l2 =>
              match matchNumber (dropWhile isRegexSpace l2) with
              | None => None
              | Some (c2, l3) =>
                  match dropWhile isRegexSpace l3 with
                  | ["}"%char] => Some (text c1, text c2)
                  | ["}"%char; c] =>
                      if (code c =? 10)%nat then Some (text c1, text c2) else None
                  | _ => None
                  end
              end
          | _ => None
          end
      end
  | _ => None
  end.

Definition parseCoords (token : string) : outcome QPointF :=
  match matchCoords token with
  | None => Err ("Invalid coordinate format '" ++ token ++ "'. Expected {x,y}.")
  | Some (c1, c2) =>
      match toDouble c1, toDouble c2 with
      | Some x, Some y => Ok (Pt x y)
      | _, _ => Err ("Failed to parse numeric values in '" ++ token ++ "'.")
      end
  end.

Definition parseFlagValue (flag value : string) (out : Command) : Command :=
  let key := mid1 flag in
  mkCommand (name out) (<[key := value]> (args out)) (coords out) (errors out).

(** The loop over the tokens that follow the command name. *)
Fixpoint parseTokens (tokens : list string) (out : Command) : outcome Command :=
  match tokens with
  | [] => Ok out
  | t :: rest =>
      if startsWith t "-coord_" then
        match rest with
        | [] => Err ("Expected coordinate after '" ++ t ++ "'.")
        | coordToken :: rest' =>
            match parseCoords coordToken with
            | Err e => Err e
            | Ok pt =>
                parseTokens rest'
                  (mkCommand (name out) (args out)
                     (<[mid1 t := pt]> (coords out)) (errors out))
            end
        end
      else if startsWith t "-" then
        match rest with
        | [] => Err ("Expected value after flag '" ++ t ++ "'.")
        | value :: rest' => parseTokens rest' (parseFlagValue t value out)
        end
      else Err ("Unexpected token '" ++ t ++ "'. Flags should start with '-'.")
  end.

Definition parse (raw : string) : outcome Command :=
  match splitWhitespace raw with
  | [] => Err "No tokens found in the command."
  | first :: tokens =>
      match parseTokens tokens (mkCommand first ∅ ∅ []) with
      | Err e => Err e
      | Ok out =>
          if isEmpty (name out) then Err "Command name is empty." else Ok out
      end
  end.

End CommandParser.

(** ** Shapes: ShapeBase.h, LineShape.cpp, TriangleShape.cpp,
       RectangleShape.cpp, SquareShape.cpp

    A shape keeps its name, the geometry of the graphics item it hands to the
    scene, and the points it stores.  Pens and brushes are left out. *)

Inductive QGraphicsItem : Type :=
  | QGraphicsLineItem (p1 p2 : QPointF)
  | QGraphicsPolygonItem (polygon : list QPointF).

Inductive ShapeKind : Type := Line | Triangle | Rectangle | Square.

Record ShapeBase : Type := mkShape {
  kind : ShapeKind;
  m_name : string;
  m_item : QGraphicsItem;
  m_pts : list QPointF
}.

Definition graphicsItem (s : ShapeBase) : QGraphicsItem := m_item s.

(** The polygon a shape renders; a line renders no polygon. *)
Definition polygon_of (s : ShapeBase) : list QPointF :=
  match m_item s with
  | QGraphicsLineItem _ _ => []
  | QGraphicsPolygonItem poly => poly
  end.

(** [LineShape(name, p1, p2)]; [m_p1] and [m_p2] are kept in [m_pts]. *)
Definition LineShape (name : string) (p1 p2 : QPointF) : ShapeBase :=
  mkShape Line name (QGraphicsLineItem p1 p2) [p1; p2].

(** [TriangleShape(name, p1, p2, p3)] *)
Definition TriangleShape (name : string) (p1 p2 p3 : QPointF) : ShapeBase :=
  mkShape Triangle name (QGraphicsPolygonItem [p1; p2; p3]) [p1; p2; p3].

(** [RectangleShape(name, p1, p2)]: the axis-aligned box of a diagonal. *)
Definition RectangleShape_diagonal (name : string) (p1 p2 : QPointF) : ShapeBase :=
  let x1 := std_min (px p1) (px p2) in
  let x2 := std_max (px p1) (px p2) in
  let y1 := std_min (py p1) (py p2) in
  let y2 := std_max (py p1) (py p2) in
  let pts := [Pt x1 y1; Pt x2 y1; Pt x2 y2; Pt x1 y2] in
  mkShape Rectangle name (QGraphicsPolygonItem pts) pts.

(** The loop of [RectangleShape(name, points)] over the points: the running
    [minX], [maxX], [minY], [maxY]. *)
Definition boundsStep (acc : float * float * float * float) (pt : QPointF)
  : float * float * float * float :=
  let '(minX, maxX, minY, maxY) := acc in
  (qMin minX (px pt), qMax maxX (px pt), qMin minY (py pt), qMax maxY (py pt)).

(** [RectangleShape(name, points)]: [m_pts] keeps the points as given, the
    rendered polygon is rebuilt from their extreme coordinates.  The
    constructor reads [points[0]]; the dispatcher always passes four points,
    and the origin stands for the missing element of an empty vector. *)
Definition RectangleShape_corners (name : string) (points : list QPointF) : ShapeBase :=
  let p0 := hd (Pt 0 0) points in
  let '(minX, maxX, minY, maxY) :=
    fold_left boundsStep points (px p0, px p0, py p0, py p0) in
  mkShape Rectangle name
    (QGraphicsPolygonItem [Pt minX minY; Pt maxX minY; Pt maxX maxY; Pt minX maxY])
    points.

(** [SquareShape(name, d1, d2)]: the corners derived from a diagonal. *)
Definition SquareShape_diagonal (name : string) (d1 d2 : QPointF) : ShapeBase :=
  let v := Pt (px d2 - px d1) (py d2 - py d1) in
  let M := Pt ((px d1 + px d2) / 2) ((py d1 + py d2) / 2) in
  let half := (sqrt (px v * px v + py v * py v) / 2)%float in
  let len := sqrt (px v * px v + py v * py v) in
  let ux := if (len =? 0)%float then 0%float else (px v / len)%float in
  let uy := if (len =? 0)%float then 0%float else (py v / len)%float in
  let w1 := Pt (- uy) ux in
  let w2 := Pt uy (- ux) in
  let sideHalf := (half / sqrt 2)%float in
  let a := Pt (px M + px v / 2 + px w1 * sideHalf) (py M + py v / 2 + py w1 * sideHalf) in
  let b := Pt (px M - px v / 2 + px w1 * sideHalf) (py M - py v / 2 + py w1 * sideHalf) in
  let c := Pt (px M - px v / 2 - px w1 * sideHalf) (py M - py v / 2 - py w1 * sideHalf) in
  let d := Pt (px M + px v / 2 - px w1 * sideHalf) (py M + py v / 2 - py w1 * sideHalf) in
  mkShape Square name (QGraphicsPolygonItem [a; b; c; d]) [a; b; c; d].

(** [SquareShape(name, vertices)]: the vertices as given, stored and rendered. *)
Definition SquareShape_vertices (name : string) (vertices : list QPointF) : ShapeBase :=
  mkShape Square name (QGraphicsPolygonItem vertices) vertices.

(** ** What the pipeline takes from Qt and from the file system

    - [readLines path]: the lines [QTextStream::readLine] yields for the file
      at [path], [None] when [QFile::open] fails;
    - [lineCreatedText name p1 p2]: the text of
      [QString("Line '%1' created from (%2,%3) to (%4,%5).")] after its five
      [arg] calls, which format doubles and substitute place markers;
    - [boundingRectCenter item]: [item->boundingRect().center()] of a polygon
      item, which depends on the pen as well. *)

Record Host : Type := mkHost {
  readLines : string -> option (list string);
  lineCreatedText : string -> QPointF -> QPointF -> string;
  boundingRectCenter : QGraphicsItem -> QPointF
}.

(** [m_pts[i]] of a stored vector; the shapes are built with every index
    they read. *)
Definition at_index (pts : list QPointF) (i : nat) : QPointF := nth i pts (Pt 0 0).

(** [ShapeBase::center], by the class of the shape. *)
Definition center (h : Host) (s : ShapeBase) : QPointF :=
  match kind s with
  | Line =>
      let m_p1 := at_index (m_pts s) 0 in
      let m_p2 := at_index (m_pts s) 1 in
      Pt ((px m_p1 + px m_p2) / 2) ((py m_p1 + py m_p2) / 2)
  | Triangle =>
      let p := at_index (m_pts s) in
      Pt ((px (p 0%nat) + px (p 1%nat) + px (p 2%nat)) / 3)
         ((py (p 0%nat) + py (p 1%nat) + py (p 2%nat)) / 3)
  | Rectangle | Square => boundingRectCenter h (m_item s)
  end.

(** ** ShapeRepository.cpp *)

Module ShapeRepository.

Definition contains (m_items : gmap string ShapeBase) (name : string) : bool :=
  bool_decide (is_Some (m_items !! name)).

(** [QMap::insert] replaces the value of a key that is present. *)
Definition add (m_items : gmap string ShapeBase) (name : string) (shape : ShapeBase)
  : gmap string ShapeBase :=
  <[name := shape]> m_items.

Definition get (m_items : gmap string ShapeBase) (name : string) : option ShapeBase :=
  m_items !! name.

End ShapeRepository.

(** ** CommandDispatcher.cpp *)

(** The dispatcher's two collaborators: the repository and the items of the
    scene, latest first. *)
Record State : Type := mkState {
  m_repo : gmap string ShapeBase;
  m_scene : list QGraphicsItem
}.

(** What [execute] hands back: the returned flag, the message, the state. *)
Definition Result : Type := bool * string * State.

Module CommandDispatcher.

(** A failed helper ends the handler with [false] and the helper's message;
    the state is as it was. *)
Definition orFail {A : Type} (st : State) (o : outcome A) (k : A -> Result) : Result :=
  match o with
  | Ok a => k a
  | Err e => (false, e, st)
  end.

Notation "'let?' x ':=' o 'else' st 'in' k" := (orFail st o (fun x => k))
  (at level 10, x pattern, o at level 100, st at level 0, k at level 200).

Definition requireName (cmd : Command) : outcome string :=
  match args cmd !! "name" with
  | None => Err "Missing -name flag."
  | Some value =>
      let nameOut := trimmed value in
      if isEmpty nameOut then Err "Name cannot be empty." else Ok nameOut
  end.

Definition validateUniqueName (st : State) (name : string) : outcome unit :=
  if ShapeRepository.contains (m_repo st) name then
    Err ("An object named '" ++ name ++ "' already exists. Choose a unique name.")
  else Ok tt.

Definition requireCoord (cmd : Command) (key : string) : outcome QPointF :=
  match coords cmd !! key with
  | None => Err ("Missing -" ++ key ++ " coordinate.")
  | Some out => Ok out
  end.

(** [m_scene->addItem(shape->graphicsItem()); m_repo->add(name, shape);] *)
Definition addShape (st : State) (name : string) (shape : ShapeBase) : State :=
  mkState (ShapeRepository.add (m_repo st) name shape)
          (graphicsItem shape :: m_scene st).

Definition handleCreateLine (h : Host) (cmd : Command) (st : State) : Result :=
  let? name := requireName cmd else st in
  let? _ := validateUniqueName st name else st in
  let? p1 := requireCoord cmd "coord_1" else st in
  let? p2 := requireCoord cmd "coord_2" else st in
  let shape := LineShape name p1 p2 in
  (true, lineCreatedText h name p1 p2, addShape st name shape).

Definition handleCreateTriangle (cmd : Command) (st : State) : Result :=
  let? name := requireName cmd else st in
  let? _ := validateUniqueName st name else st in
  let? p1 := requireCoord cmd "coord_1" else st in
  let? p2 := requireCoord cmd "coord_2" else st in
  let? p3 := requireCoord cmd "coord_3" else st in
  if Utility.areCollinear p1 p2 p3 Utility.eps_default then
    (false, "Triangle vertices are collinear. Provide non-collinear points.", st)
  else
    let shape := TriangleShape name p1 p2 p3 in
    (true, "Triangle '" ++ name ++ "' created.", addShape st name shape).

(** [hasFour]: all of [coord_1] .. [coord_4] are present. *)
Definition hasFour (cmd : Command) : option (QPointF * QPointF * QPointF * QPointF) :=
  match coords cmd !! "coord_1", coords cmd !! "coord_2",
        coords cmd !! "coord_3", coords cmd !! "coord_4" with
  | Some p1, Some p2, Some p3, Some p4 => Some (p1, p2, p3, p4)
  | _, _, _, _ => None
  end.

Definition handleCreateRectangle (cmd : Command) (st : State) : Result :=
  let? name := requireName cmd else st in
  let? _ := validateUniqueName st name else st in
  match hasFour cmd with
  | Some (p1, p2, p3, p4) =>
      if negb (Utility.isRectangle p1 p2 p3 p4 Utility.eps_default) then
        (false, "Provided corners do not form a rectangle.", st)
      else
        let shape := RectangleShape_corners name [p1; p2; p3; p4] in
        (true, "Rectangle '" ++ name ++ "' created from four corners.",
         addShape st name shape)
  | None =>
      let? p1 := requireCoord cmd "coord_1" else st in
      let? p2 := requireCoord cmd "coord_2" else st in
      if qFuzzyCompare (px p1) (px p2) || qFuzzyCompare (py p1) (py p2) then
        (false, "Diagonal points must differ in both x and y for a valid rectangle.", st)
      else
        let shape := RectangleShape_diagonal name p1 p2 in
        (true, "Rectangle '" ++ name ++ "' created from diagonal points.",
         addShape st name shape)
  end.

Definition handleCreateSquare (cmd : Command) (st : State) : Result :=
  let? name := requireName cmd else st in
  let? _ := validateUniqueName st name else st in
  match hasFour cmd with
  | Some (p1, p2, p3, p4) =>
      if negb (Utility.isSquare p1 p2 p3 p4 Utility.eps_default) then
        (false, "Provided vertices do not form a square.", st)
      else
        let shape := SquareShape_vertices name [p1; p2; p3; p4] in
        (true, "Square '" ++ name ++ "' created from four vertices.",
         addShape st name shape)
  | None =>
      let? p1 := requireCoord cmd "coord_1" else st in
      let? p2 := requireCoord cmd "coord_2" else st in
      if negb (Utility.isValidSquareDiagonal p1 p2 Utility.eps_diagonal) then
        (false, "Diagonal points do not define a valid square.", st)
      else
        let shape := SquareShape_diagonal name p1 p2 in
        (true, "Square '" ++ name ++ "' created from diagonal points.",
         addShape st name shape)
  end.

(** The dashed segment between two centers goes to the scene only. *)
Definition handleConnect (h : Host) (cmd : Command) (st : State) : Result :=
  match args cmd !! "object_name_1", args cmd !! "object_name_2" with
  | Some n1, Some n2 =>
      match ShapeRepository.get (m_repo st) n1, ShapeRepository.get (m_repo st) n2 with
      | Some s1, Some s2 =>
          let c1 := center h s1 in
          let c2 := center h s2 in
          (true, "Connected '" ++ n1 ++ "' and '" ++ n2 ++ "' by their centers.",
           mkState (m_repo st) (QGraphicsLineItem c1 c2 :: m_scene st))
      | _, _ => (false, "One or both objects not found.", st)
      end
  | _, _ => (false, "Missing -object_name_1 or -object_name_2.", st)
  end.

(** The [while (!in.atEnd())] loop of [handleExecuteFile].  [exec] is the
    dispatcher the lines are handed to; it gets a fresh, empty [execMsg].
    The counters are C++ [int]s, far from their bounds for any script. *)
Fixpoint scriptLoop (exec : Command -> string -> State -> option Result)
    (lines : list string) (lineNo successCount failureCount : Z)
    (msg : string) (st : State) : option (Z * Z * string * State) :=
  match lines with
  | [] => Some (successCount, failureCount, msg, st)
  | line :: rest =>
      let raw := trimmed line in
      let lineNo := (lineNo + 1)%Z in
      if isEmpty raw then
        scriptLoop exec rest lineNo successCount failureCount msg st
      else
        match CommandParser.parse raw with
        | Err parseError =>
            scriptLoop exec rest lineNo successCount (failureCount + 1)%Z
              (msg ++ nl ++ "Line " ++ number lineNo ++ " parse error: " ++ parseError)
              st
        | Ok c =>
            match exec c "" st with
            | None => None
            | Some (false, execMsg, st') =>
                scriptLoop exec rest lineNo successCount (failureCount + 1)%Z
                  (msg ++ nl ++ "Line " ++ number lineNo ++ " failed: " ++ execMsg)
                  st'
            | Some (true, _, st') =>
                scriptLoop exec rest lineNo (successCount + 1)%Z failureCount msg st'
            end
        end
  end.

Definition handleExecuteFile (h : Host)
    (exec : Command -> string -> State -> option Result)
    (cmd : Command) (msg : string) (st : State) : option Result :=
  match args cmd !! "file_path" with
  | None => Some (false, "Missing -file_path.", st)
  | Some path =>
      match readLines h path with
      | None => Some (false, "Failed to open script file: " ++ path, st)
      | Some lines =>
          match scriptLoop exec lines 0 0 0 msg st with
          | None => None
          | Some (successCount, failureCount, msg', st') =>
              Some ((failureCount =? 0)%Z,
                    "Script executed: " ++ number successCount ++ " successes, "
                      ++ number failureCount ++ " failures." ++ msg',
                    st')
          end
      end
  end.

(** [execute].  A script may run [execute_file] on a script, itself
    included, so the recursion is bounded by [fuel], the number of nested
    scripts still allowed; [None] means the bound was reached.  Every
    handler but [handleExecuteFile] assigns [message] on each of its
    paths, so only that one reads the incoming text. *)
Fixpoint execute (h : Host) (fuel : nat) (cmd : Command) (message : string)
    (st : State) : option Result :=
  if String.eqb (name cmd) "create_line" then Some (handleCreateLine h cmd st)
  else if String.eqb (name cmd) "create_triangle" then Some (handleCreateTriangle cmd st)
  else if String.eqb (name cmd) "create_rectangle" then Some (handleCreateRectangle cmd st)
  else if String.eqb (name cmd) "create_square" then Some (handleCreateSquare cmd st)
  else if String.eqb (name cmd) "connect" then Some (handleConnect h cmd st)
  else if String.eqb (name cmd) "execute_file" then
    match fuel with
    | O => None
    | S fuel' => handleExecuteFile h (execute h fuel') cmd message st
    end
  else Some (false, "Unknown command '" ++ name cmd ++ "'.", st).

End CommandDispatcher.

(** ** MainWindow::onCommandEntered: one console line

    The text is trimmed; an empty command and a parse error are logged and
    nothing is dispatched. *)
Definition onCommandEntered (h : Host) (fuel : nat) (text : string) (st : State)
  : option Result :=
  let raw := trimmed text in
  if isEmpty raw then Some (false, "Empty command. Please enter a valid command.", st)
  else
    match CommandParser.parse raw with
    | Err parseError => Some (false, "Parse error: " ++ parseError, st)
    | Ok cmd => CommandDispatcher.execute h fuel cmd "" st
    end.

(** The state at start-up: an empty repository and an empty scene. *)
Definition initialState : State := mkState ∅ [].

(** ** Notions of the specification

    The geometry the specification speaks of.  The midpoint is the exact
    one, taken on the values of the doubles and rounded once; the boxes and
    the tests below are in the arithmetic of the program, where every
    comparison is the one of doubles. *)






(** The corners of the axis-aligned box between [(x1, y1)] and [(x2, y2)],
    counter-clockwise from the corner of the smallest coordinates. *)
Definition boxCorners (x1 x2 y1 y2 : float) : list QPointF :=
  [Pt x1 y1; Pt x2 y1; Pt x2 y2; Pt x1 y2].


(** The smallest and the largest of a first value and the values after it. *)
Definition least (v : float) (vs : list float) : float := fold_left qMin vs v.
Definition greatest (v : float) (vs : list float) : float := fold_left qMax vs v.

(** The bounding box of four points. *)
Definition boundingBox (p1 p2 p3 p4 : QPointF) : list QPointF :=
  boxCorners (least (px p1) [px p2; px p3; px p4])
             (greatest (px p1) [px p2; px p3; px p4])
             (least (py p1) [py p2; py p3; py p4])
             (greatest (py p1) [py p2; py p3; py p4]).

(** Two diagonal ends share a coordinate, within Qt's relative tolerance. *)
Definition sharesCoordinate (p1 p2 : QPointF) : bool :=
  qFuzzyCompare (px p1) (px p2) || qFuzzyCompare (py p1) (py p2).

(** Both coordinates of a point are finite doubles: neither NaN nor an
    infinity. *)
Definition finitePoint (p : QPointF) : bool :=
  is_finite (px p) && is_finite (py p).

(** Every coordinate of a command is a point with finite coordinates. *)
Definition coordsFinite (c : Command) : Prop :=
  forall key p, coords c !! key = Some p -> finitePoint p = true.

(** ** Concrete hosts, states and commands for the examples *)

(** A host without any readable file. *)
Definition noFiles : Host :=
  mkHost (fun _ => None)
         (fun name _ _ => "Line '" ++ name ++ "' created.")
         (fun _ => Pt 0 0).

(** The state after [create_line -name l1 -coord_1 {0,0} -coord_2 {5,2}]. *)
Definition stateWithLine : State :=
  CommandDispatcher.addShape initialState "l1" (LineShape "l1" (Pt 0 0) (Pt 5 2)).

(** [create_triangle -name l1 -coord_1 {0,0} -coord_2 {3,0} -coord_3 {0,4}] *)
Definition triangleNamedL1 : Command :=
  mkCommand "create_triangle" {[ "name" := "l1" ]}
    (<["coord_1" := Pt 0 0]> (<["coord_2" := Pt 3 0]> {[ "coord_3" := Pt 0 4 ]})) [].

(** [create_rectangle -name r1 -coord_1 {0,0} -coord_2 {3,4}] *)
Definition rectangleByDiagonal : Command :=
  mkCommand "create_rectangle" {[ "name" := "r1" ]}
    (<["coord_1" := Pt 0 0]> {[ "coord_2" := Pt 3 4 ]}) [].

(** A command with the four coordinates [p1] .. [p4]. *)
Definition fourPointCommand (commandName shapeName : string) (p1 p2 p3 p4 : QPointF)
  : Command :=
  mkCommand commandName {[ "name" := shapeName ]}
    (<["coord_1" := p1]> (<["coord_2" := p2]> (<["coord_3" := p3]> {[ "coord_4" := p4 ]})))
    [].

(** [create_square -name sq -coord_1 {1,0} -coord_2 {2,1} -coord_3 {1,2}
    -coord_4 {0,1}]: a square standing on a corner. *)
Definition diamondSquare : Command :=
  fourPointCommand "create_square" "sq" (Pt 1 0) (Pt 2 1) (Pt 1 2) (Pt 0 1).

(** [connect -object_name_1 l1 -object_name_2 r_missing] *)
Definition connectToMissing : Command :=
  mkCommand "connect"
    (<["object_name_1" := "l1"]> {[ "object_name_2" := "r_missing" ]}) ∅ [].

(** ** The batch report, line by line

    What the specification says of [execute_file]: every line of the script
    has one outcome, fixed by the line and by the state the lines before it
    left; the report counts the outcomes and lists the failures. *)

Inductive LineOutcome : Type :=
  | Skipped
  | Succeeded
  | ParseFailed (lineNo : Z) (parseError : string)
  | DispatchFailed (lineNo : Z) (execMsg : string).

Definition failed (o : LineOutcome) : bool :=
  match o with
  | ParseFailed _ _ | DispatchFailed _ _ => true
  | Skipped | Succeeded => false
  end.

Definition succeeded (o : LineOutcome) : bool :=
  match o with
  | Succeeded => true
  | _ => false
  end.

(** The diagnostic entry of an outcome; only failures have one. *)
Definition diagnostic (o : LineOutcome) : string :=
  match o with
  | ParseFailed lineNo parseError =>
      nl ++ "Line " ++ number lineNo ++ " parse error: " ++ parseError
  | DispatchFailed lineNo execMsg =>
      nl ++ "Line " ++ number lineNo ++ " failed: " ++ execMsg
  | Skipped | Succeeded => ""
  end.

Definition diagnostics (outs : list LineOutcome) : string :=
  String.concat "" (map diagnostic outs).

Definition countOf (p : LineOutcome -> bool) (outs : list LineOutcome) : Z :=
  Z.of_nat (length (filter (fun o => p o = true) outs)).

(** The outcomes of the lines after line [lineNo], run from [st] with the
    dispatcher [exec], and the state after the last of them; [None] when
    [exec] does not return on some line. *)
Fixpoint lineOutcomes (exec : Command -> string -> State -> option Result)
    (lines : list string) (lineNo : Z) (st : State)
    : option (list LineOutcome * State) :=
  match lines with
  | [] => Some ([], st)
  | line :: rest =>
      let n := (lineNo + 1)%Z in
      let after (o : LineOutcome) (st1 : State) :=
        match lineOutcomes exec rest n st1 with
        | Some (outs, st') => Some (o :: outs, st')
        | None => None
        end in
      if isEmpty (trimmed line) then after Skipped st
      else
        match CommandParser.parse (trimmed line) with
        | Err parseError => after (ParseFailed n parseError) st
        | Ok c =>
            match exec c "" st with
            | None => None
            | Some (true, _, st1) => after Succeeded st1
            | Some (false, execMsg, st1) => after (DispatchFailed n execMsg) st1
            end
        end
  end.

(** The text of the report for the outcomes [outs]: the two counts, what
    the message held on entry, and the diagnostics. *)
Definition batchReport (message : string) (outs : list LineOutcome) : string :=
  "Script executed: " ++ number (countOf succeeded outs) ++ " successes, "
    ++ number (countOf failed outs) ++ " failures." ++ message ++ diagnostics outs.

(** A script none of whose lines is an [execute_file] command. *)
Definition flatScript (lines : list string) : Prop :=
  forall line c,
    line ∈ lines -> CommandParser.parse (trimmed line) = Ok c ->
    name c <> "execute_file".

(** A host with three scripts.  [shapes.txt] has five command lines, two of
    them invalid; [notes.txt] has a comment line, a blank line and one valid
    command; [loop.txt] runs itself. *)
Definition shapesScript : list string :=
  [ "create_line -name l1 -coord_1 {0,0} -coord_2 {5,2}";
    "create_triangle -name t1 -coord_1 {0,0} -coord_2 {1,1} -coord_3 {2,2}";
    "create_rectangle -name r1 -coord_1 {0,0} -coord_2 {3,4}";
    "create_line -name";
    "connect -object_name_1 l1 -object_name_2 r1" ].

Definition notesScript : list string :=
  [ "# the shapes of the demo";
    "   ";
    "create_line -name l1 -coord_1 {0,0} -coord_2 {5,2}" ].

Definition withScripts : Host :=
  mkHost (fun path =>
            if String.eqb path "shapes.txt" then Some shapesScript
            else if String.eqb path "notes.txt" then Some notesScript
            else if String.eqb path "loop.txt" then
              Some ["execute_file -file_path loop.txt"]
            else None)
         (fun name _ _ => "Line '" ++ name ++ "' created.")
         (fun _ => Pt 0 0).

(** [execute_file -file_path <path>] *)
Definition executeFile (path : string) : Command :=
  mkCommand "execute_file" {[ "file_path" := path ]} ∅ [].



(** The digit one followed by [n] zeros. *)
Definition oneAndZeros (n : nat) : string :=
  "1" ++ String.concat "" (repeat "0" n).

(** A point at infinity on the x axis, and the two ends of a diagonal of
    length [2e200]. *)
Definition farPoint : QPointF := Pt infinity 0.
Definition hugeEnd1 : QPointF := Pt 1e200 0.
Definition hugeEnd2 : QPointF := Pt (-1e200) 0.

(** [create_line -name l1 -coord_1 {0,0} -coord_2 {5,2}] *)
Definition lineL1 : Command :=
  mkCommand "create_line" {[ "name" := "l1" ]}
    (<["coord_1" := Pt 0 0]> {[ "coord_2" := Pt 5 2 ]}) [].




(** The two point sets of the [isSquare] examples. *)
Definition unit2_square : list QPointF :=
  [Pt 0 0; Pt 2 0; Pt 2 2; Pt 0 2].

Definition rect_3x2 : list QPointF :=
  [Pt 0 0; Pt 3 0; Pt 3 2; Pt 0 2].

(** [isSquare] applied to a list of four points, [None] on any other list. *)
Definition isSquare_on (l : list QPointF) : option bool :=
  match l with
  | [p1; p2; p3; p4] => Some (Utility.isSquare p1 p2 p3 p4 Utility.eps_default)
  | _ => None
  end.

(** The four commands that create a shape. *)
Definition creates (commandName : string) : Prop :=
  commandName = "create_line" \/ commandName = "create_triangle" \/
  commandName = "create_rectangle" \/ commandName = "create_square".



(** ** Doubles at the level of their IEEE 754 specification *)

(** [v] is the opposite of [u], or both are [+0]: how [b - a] relates to
    [a - b]. *)
Definition mirrored (u v : spec_float) : Prop :=
  v = SFopp u \/ (u = S754_zero false /\ v = S754_zero false).


(** A double of the IEEE 754 specification that is a zero or a finite
    number: neither NaN nor an infinity. *)
Definition SFfinite (s : spec_float) : bool :=
  match s with
  | S754_zero _ | S754_finite _ _ _ => true
  | S754_infinity _ | S754_nan => false
  end.


(** A text made of white space only, the empty text included. *)
Definition blankText (raw : string) : bool := forallb isRegexSpace (chars raw).

(** A token: a non-empty text without white space. *)
Definition tokenText (t : string) : bool :=
  negb (isEmpty t) && forallb (fun c => negb (isRegexSpace c)) (chars t).

(** The first character of a text. *)
Definition firstChar (s : string) : option ascii :=
  match s with
  | EmptyString => None
  | String c _ => Some c
  end.

(** The messages of the loop over the flags begin with E, I, F or U. *)
Definition flagErrorHead (e : string) : Prop :=
  firstChar e = Some "E"%char \/ firstChar e = Some "I"%char \/
  firstChar e = Some "F"%char \/ firstChar e = Some "U"%char.

(** The coordinate keys of a command are of the [coord_] family, and its
    other flags are not. *)
Definition keysSorted (c : Command) : Prop :=
  (forall key p, coords c !! key = Some p -> startsWith key "coord_" = true) /\
  (forall key v, args c !! key = Some v -> startsWith key "coord_" = false).

(** ** States before and after a command *)

(** [st'] is [st] with one more shape: [shape], named [nm], under the name
    [nm], which was free and is not empty; the scene has the item of the
    shape in front. *)
Definition registered (st st' : State) (nm : string) (shape : ShapeBase) : Prop :=
  m_repo st !! nm = None /\ isEmpty nm = false /\ m_name shape = nm /\
  st' = CommandDispatcher.addShape st nm shape.

(** [st'] is [st] with one more segment in front of the scene. *)
Definition connected (st st' : State) : Prop :=
  m_repo st' = m_repo st /\
  exists c1 c2, m_scene st' = QGraphicsLineItem c1 c2 :: m_scene st.

(** Nothing registered is lost or replaced, and nothing leaves the scene. *)
Definition grownFrom (st st' : State) : Prop :=
  m_repo st ⊆ m_repo st' /\ m_scene st `suffix_of` m_scene st'.

(** Every shape is registered under its own name, that name is not empty,
    and the item of the shape is in the scene. *)
Definition wellFormed (st : State) : Prop :=
  forall key shape,
    m_repo st !! key = Some shape ->
    m_name shape = key /\ isEmpty key = false /\ graphicsItem shape ∈ m_scene st.

(** The kind of shape a [create_*] command makes. *)
Definition kindMade (commandName : string) : option ShapeKind :=
  if String.eqb commandName "create_line" then Some Line
  else if String.eqb commandName "create_triangle" then Some Triangle
  else if String.eqb commandName "create_rectangle" then Some Rectangle
  else if String.eqb commandName "create_square" then Some Square
  else None.

(** The lines of a script typed one after the other at the console: the
    state after the last one, [None] when one of them does not return. *)
Fixpoint typeLines (h : Host) (fuel : nat) (lines : list string) (st : State)
  : option State :=
  match lines with
  | [] => Some st
  | line :: rest =>
      match onCommandEntered h fuel line st with
      | None => None
      | Some (_, _, st1) => typeLines h fuel rest st1
      end
  end.

(** The lines of a script that are not blank. *)
Definition nonBlank (lines : list string) : list string :=
  filter (fun line => isEmpty (trimmed line) = false) lines.

(** What a handler that creates a shape returns: a failure with the state as
    it was, or a success with one shape of the handler's kind registered. *)
Definition createsOrFails (k : ShapeKind) (cmd : Command) (st : State) (r : Result)
  : Prop :=
  (r.1.1 = false /\ r.2 = st) \/
  (r.1.1 = true /\
   exists nm shape,
     CommandDispatcher.requireName cmd = Ok nm /\ kind shape = k /\
     registered st r.2 nm shape).

(** The [-name] value of a command can be used in state [st]: it is given,
    it is not empty after trimming, and the trimmed name is free. *)
Definition nameUsable (cmd : Command) (st : State) : Prop :=
  exists value,
    args cmd !! "name" = Some value /\ isEmpty (trimmed value) = false /\
    m_repo st !! trimmed value = None.

(** * Properties *)

(** ** The square predicate on concrete points *)

Lemma isSquare_on_all_orders (pts : list QPointF) (b : bool) (l : list QPointF) :
  forallb (fun l' => match isSquare_on l' with
                     | Some b' => Bool.eqb b' b
                     | None => false
                     end) (permutations pts) = true ->
  l ≡ₚ pts -> isSquare_on l = Some b.
Proof.
  intros Hall Hperm.
  rewrite forallb_forall in Hall.
  specialize (Hall l).
  destruct (isSquare_on l) as [b'|].
  - f_equal. apply Bool.eqb_prop. apply Hall.
    apply list_elem_of_In, permutations_Permutation. by symmetry.
  - discriminate Hall.
    apply list_elem_of_In, permutations_Permutation. by symmetry.
Qed.

(** C1. With the default tolerance [isSquare] accepts the points (0,0), (2,0),
    (2,2), (0,2) in every one of their 24 argument orders, as a square
    predicate should.  It accepts the 3 by 2 rectangle (0,0), (3,0), (3,2),
    (0,2) as well, in every order: both "nearest neighbour" distances [s1] and
    [s2] are the short side, so the comparison never sees the long one. *)
Theorem isSquare_examples_any_order (p1 p2 p3 p4 : QPointF) :
  ([p1; p2; p3; p4] ≡ₚ unit2_square ->
   Utility.isSquare p1 p2 p3 p4 Utility.eps_default = true) /\
  ([p1; p2; p3; p4] ≡ₚ rect_3x2 ->
   Utility.isSquare p1 p2 p3 p4 Utility.eps_default = true).
Proof.
  split; intros Hperm.
  - assert (H : isSquare_on [p1; p2; p3; p4] = Some true).
    { apply (isSquare_on_all_orders unit2_square); [by vm_compute | done]. }
    by injection H.
  - assert (H : isSquare_on [p1; p2; p3; p4] = Some true).
    { apply (isSquare_on_all_orders rect_3x2); [by vm_compute | done]. }
    by injection H.
Qed.

Lemma isSquare_examples_any_order_witness :
  Utility.isSquare (Pt 2 0) (Pt 0 0) (Pt 2 2) (Pt 0 2) Utility.eps_default = true /\
  Utility.isSquare (Pt 0 0) (Pt 3 0) (Pt 3 2) (Pt 0 2) Utility.eps_default = true.
Proof.
  split.
  - apply (proj1 (isSquare_examples_any_order (Pt 2 0) (Pt 0 0) (Pt 2 2) (Pt 0 2))).
    apply perm_swap.
  - apply (proj2 (isSquare_examples_any_order (Pt 0 0) (Pt 3 0) (Pt 3 2) (Pt 0 2))).
    reflexivity.
Defined.

(** ** The dispatcher, command by command *)

Section Dispatch.
Import CommandDispatcher.
Variables (h : Host) (fuel : nat) (cmd : Command) (message : string) (st : State).

Lemma execute_create_line :
  name cmd = "create_line" ->
  execute h fuel cmd message st = Some (handleCreateLine h cmd st).
Proof. intros Hn. destruct fuel; simpl; rewrite Hn; reflexivity. Qed.

Lemma execute_create_triangle :
  name cmd = "create_triangle" ->
  execute h fuel cmd message st = Some (handleCreateTriangle cmd st).
Proof. intros Hn. destruct fuel; simpl; rewrite Hn; reflexivity. Qed.

Lemma execute_create_rectangle :
  name cmd = "create_rectangle" ->
  execute h fuel cmd message st = Some (handleCreateRectangle cmd st).
Proof. intros Hn. destruct fuel; simpl; rewrite Hn; reflexivity. Qed.

Lemma execute_create_square :
  name cmd = "create_square" ->
  execute h fuel cmd message st = Some (handleCreateSquare cmd st).
Proof. intros Hn. destruct fuel; simpl; rewrite Hn; reflexivity. Qed.

Lemma execute_connect :
  name cmd = "connect" ->
  execute h fuel cmd message st = Some (handleConnect h cmd st).
Proof. intros Hn. destruct fuel; simpl; rewrite Hn; reflexivity. Qed.

Lemma execute_execute_file :
  name cmd = "execute_file" ->
  execute h (S fuel) cmd message st
  = handleExecuteFile h (execute h fuel) cmd message st.
Proof. intros Hn. simpl; rewrite Hn; reflexivity. Qed.
End Dispatch.

(** The name checks shared by the four [create_*] handlers. *)

Lemma requireName_ok (cmd : Command) (value : string) :
  args cmd !! "name" = Some value ->
  isEmpty (trimmed value) = false ->
  CommandDispatcher.requireName cmd = Ok (trimmed value).
Proof.
  intros Hv He. unfold CommandDispatcher.requireName. by rewrite Hv, He.
Qed.

Lemma validateUniqueName_taken (st : State) (A : string) :
  is_Some (m_repo st !! A) ->
  CommandDispatcher.validateUniqueName st A
  = Err ("An object named '" ++ A ++ "' already exists. Choose a unique name.").
Proof.
  intros HA. unfold CommandDispatcher.validateUniqueName, ShapeRepository.contains.
  by rewrite bool_decide_eq_true_2.
Qed.

Lemma validateUniqueName_fresh (st : State) (A : string) :
  m_repo st !! A = None ->
  CommandDispatcher.validateUniqueName st A = Ok tt.
Proof.
  intros HA. unfold CommandDispatcher.validateUniqueName, ShapeRepository.contains.
  rewrite bool_decide_eq_false_2; [done|]. rewrite HA. by intros [? ?].
Qed.

(** C5. Once a name [A] is in the registry, a [create_line],
    [create_triangle], [create_rectangle] or [create_square] command whose
    [-name] value trims to [A] fails with the duplicate-name message, whatever
    its coordinates are, and the repository and the scene stay as they were. *)
Theorem create_duplicate_name_rejected
    (h : Host) (fuel : nat) (cmd : Command) (message : string) (st : State)
    (value A : string) :
  creates (name cmd) ->
  args cmd !! "name" = Some value ->
  trimmed value = A ->
  isEmpty A = false ->
  is_Some (m_repo st !! A) ->
  CommandDispatcher.execute h fuel cmd message st
  = Some (false,
          "An object named '" ++ A ++ "' already exists. Choose a unique name.",
          st).
Proof.
  intros Hc Hv <- He HA.
  assert (Hn := requireName_ok cmd value Hv He).
  assert (Hu := validateUniqueName_taken st _ HA).
  destruct Hc as [Hc | [Hc | [Hc | Hc]]].
  - rewrite execute_create_line by done.
    unfold CommandDispatcher.handleCreateLine. by rewrite Hn; simpl; rewrite Hu.
  - rewrite execute_create_triangle by done.
    unfold CommandDispatcher.handleCreateTriangle. by rewrite Hn; simpl; rewrite Hu.
  - rewrite execute_create_rectangle by done.
    unfold CommandDispatcher.handleCreateRectangle. by rewrite Hn; simpl; rewrite Hu.
  - rewrite execute_create_square by done.
    unfold CommandDispatcher.handleCreateSquare. by rewrite Hn; simpl; rewrite Hu.
Qed.

Lemma create_duplicate_name_rejected_witness :
  CommandDispatcher.execute noFiles 0 triangleNamedL1 "" stateWithLine
  = Some (false, "An object named 'l1' already exists. Choose a unique name.",
          stateWithLine).
Proof.
  apply (create_duplicate_name_rejected noFiles 0 triangleNamedL1 "" stateWithLine
           "l1" "l1").
  - right. left. reflexivity.
  - reflexivity.
  - reflexivity.
  - reflexivity.
  - eexists. reflexivity.
Defined.

(** C8. [connect] returns for every command and state, and the repository
    after it is the repository before it.  It succeeds exactly when both
    [-object_name_1] and [-object_name_2] are given and both names are
    registered; on failure the scene is untouched as well, on success the
    scene gains one segment and nothing is stored under any name. *)
Theorem connect_keeps_registry
    (h : Host) (fuel : nat) (cmd : Command) (message : string) (st : State) :
  name cmd = "connect" ->
  exists (ok : bool) (msg : string) (st' : State),
    CommandDispatcher.execute h fuel cmd message st = Some (ok, msg, st') /\
    m_repo st' = m_repo st /\
    (ok = true <->
       exists n1 n2,
         args cmd !! "object_name_1" = Some n1 /\
         args cmd !! "object_name_2" = Some n2 /\
         is_Some (ShapeRepository.get (m_repo st) n1) /\
         is_Some (ShapeRepository.get (m_repo st) n2)) /\
    (ok = false -> st' = st) /\
    (ok = true -> exists c1 c2, m_scene st' = QGraphicsLineItem c1 c2 :: m_scene st).
Proof.
  intros Hn. rewrite execute_connect by done.
  unfold CommandDispatcher.handleConnect, ShapeRepository.get.
  destruct (args cmd !! "object_name_1") as [n1|] eqn:H1;
    [destruct (args cmd !! "object_name_2") as [n2|] eqn:H2;
       [destruct (m_repo st !! n1) as [s1|] eqn:G1;
          [destruct (m_repo st !! n2) as [s2|] eqn:G2|]|]|].
  - eexists _, _, _; split; [reflexivity|]; simpl.
    repeat split; try done; eauto 10.
  - eexists _, _, _; split; [reflexivity|].
    repeat split; try done.
    intros (? & ? & ? & Hb & _ & [? Hx]). simplify_eq.
  - eexists _, _, _; split; [reflexivity|].
    repeat split; try done.
    intros (? & ? & Ha & _ & [? Hx] & _). simplify_eq.
  - eexists _, _, _; split; [reflexivity|].
    repeat split; try done. by intros (? & ? & _ & ? & _).
  - eexists _, _, _; split; [reflexivity|].
    repeat split; try done. by intros (? & ? & ? & _).
Qed.

Lemma connect_keeps_registry_witness :
  exists (ok : bool) (msg : string) (st' : State),
    CommandDispatcher.execute noFiles 0 connectToMissing "" stateWithLine
    = Some (ok, msg, st') /\
    m_repo st' = m_repo stateWithLine /\
    (ok = true <->
       exists n1 n2,
         args connectToMissing !! "object_name_1" = Some n1 /\
         args connectToMissing !! "object_name_2" = Some n2 /\
         is_Some (ShapeRepository.get (m_repo stateWithLine) n1) /\
         is_Some (ShapeRepository.get (m_repo stateWithLine) n2)) /\
    (ok = false -> st' = stateWithLine) /\
    (ok = true ->
     exists c1 c2, m_scene st' = QGraphicsLineItem c1 c2 :: m_scene stateWithLine).
Proof.
  apply (connect_keeps_registry noFiles 0 connectToMissing "" stateWithLine).
  reflexivity.
Defined.

(** ** Rectangles and squares *)


Lemma hasFour_some (cmd : Command) (p1 p2 p3 p4 : QPointF) :
  coords cmd !! "coord_1" = Some p1 -> coords cmd !! "coord_2" = Some p2 ->
  coords cmd !! "coord_3" = Some p3 -> coords cmd !! "coord_4" = Some p4 ->
  CommandDispatcher.hasFour cmd = Some (p1, p2, p3, p4).
Proof.
  intros H1 H2 H3 H4. unfold CommandDispatcher.hasFour. by rewrite H1, H2, H3, H4.
Qed.




Lemma qMin_same (a : float) : qMin a a = a.
Proof. unfold qMin. by destruct (a <? a)%float. Qed.

Lemma qMax_same (a : float) : qMax a a = a.
Proof. unfold qMax. by destruct (a <? a)%float. Qed.

(** The polygon [RectangleShape(name, points)] renders for four points. *)
Lemma RectangleShape_corners_polygon (nm : string) (p1 p2 p3 p4 : QPointF) :
  polygon_of (RectangleShape_corners nm [p1; p2; p3; p4]) = boundingBox p1 p2 p3 p4 /\
  m_pts (RectangleShape_corners nm [p1; p2; p3; p4]) = [p1; p2; p3; p4].
Proof.
  unfold RectangleShape_corners, boundingBox, least, greatest; simpl.
  by rewrite !qMin_same, !qMax_same.
Qed.





(** ** Batch execution *)

Lemma append_cons (a : ascii) (s t : string) : String a s ++ t = String a (s ++ t).
Proof. reflexivity. Qed.

Lemma append_assoc (s1 s2 s3 : string) : (s1 ++ s2) ++ s3 = s1 ++ (s2 ++ s3).
Proof.
  induction s1 as [|a s1 IH]; [reflexivity|].
  by rewrite !append_cons, IH.
Qed.

Lemma append_empty_r (s : string) : s ++ "" = s.
Proof.
  induction s as [|a s IH]; [reflexivity|]. by rewrite append_cons, IH.
Qed.

Lemma diagnostics_cons (o : LineOutcome) (outs : list LineOutcome) :
  diagnostics (o :: outs) = diagnostic o ++ diagnostics outs.
Proof.
  unfold diagnostics. destruct outs as [|o' outs]; simpl.
  - by rewrite append_empty_r.
  - reflexivity.
Qed.

Lemma countOf_cons (p : LineOutcome -> bool) (o : LineOutcome) (outs : list LineOutcome) :
  countOf p (o :: outs) = ((if p o then 1 else 0) + countOf p outs)%Z.
Proof.
  unfold countOf. rewrite filter_cons.
  destruct (p o); case_decide; try done; simpl length; lia.
Qed.

Lemma countOf_nonneg (p : LineOutcome -> bool) (outs : list LineOutcome) :
  (0 <= countOf p outs)%Z.
Proof. unfold countOf. lia. Qed.

(** The loop of [handleExecuteFile] accumulates what [lineOutcomes] lists:
    its counters grow by the numbers of successes and failures, its message
    by the diagnostics, in line order. *)
Lemma scriptLoop_outcomes (exec : Command -> string -> State -> option Result)
    (lines : list string) :
  forall (lineNo successCount failureCount : Z) (msg : string) (st : State),
    CommandDispatcher.scriptLoop exec lines lineNo successCount failureCount msg st
    = match lineOutcomes exec lines lineNo st with
      | None => None
      | Some (outs, st') =>
          Some ((successCount + countOf succeeded outs)%Z,
                (failureCount + countOf failed outs)%Z,
                msg ++ diagnostics outs, st')
      end.
Proof.
  induction lines as [|line rest IH]; intros lineNo sc fc msg st.
  - simpl. unfold countOf, diagnostics; simpl.
    by rewrite !Z.add_0_r, append_empty_r.
  - simpl CommandDispatcher.scriptLoop. simpl lineOutcomes.
    assert (Hstep : forall (o : LineOutcome) sc' fc' msg' st1,
               sc' = (sc + (if succeeded o then 1 else 0))%Z ->
               fc' = (fc + (if failed o then 1 else 0))%Z ->
               msg' = msg ++ diagnostic o ->
               CommandDispatcher.scriptLoop exec rest (lineNo + 1) sc' fc' msg' st1
               = match
                   match lineOutcomes exec rest (lineNo + 1) st1 with
                   | Some (outs, st') => Some (o :: outs, st')
                   | None => None
                   end
                 with
                 | None => None
                 | Some (outs, st') =>
                     Some ((sc + countOf succeeded outs)%Z,
                           (fc + countOf failed outs)%Z,
                           msg ++ diagnostics outs, st')
                 end).
    { intros o sc' fc' msg' st1 -> -> ->. rewrite IH.
      destruct (lineOutcomes exec rest (lineNo + 1) st1) as [[outs st']|]; [|done].
      by rewrite !countOf_cons, diagnostics_cons, !Z.add_assoc, append_assoc. }
    destruct (isEmpty (trimmed line)).
    { apply Hstep; simpl; [lia | lia | by rewrite append_empty_r]. }
    destruct (CommandParser.parse (trimmed line)) as [c|parseError].
    + destruct (exec c "" st) as [[[[] execMsg] st1]|]; [| |done].
      * apply Hstep; simpl; [lia | lia | by rewrite append_empty_r].
      * apply Hstep; simpl; [lia | lia | reflexivity].
    + apply Hstep; simpl; [lia | lia | reflexivity].
Qed.

Lemma lineOutcomes_length (exec : Command -> string -> State -> option Result)
    (lines : list string) :
  forall (lineNo : Z) (st st' : State) (outs : list LineOutcome),
    lineOutcomes exec lines lineNo st = Some (outs, st') ->
    length outs = length lines.
Proof.
  induction lines as [|line rest IH]; intros lineNo st st' outs; simpl.
  - by intros [= <- _].
  - assert (Hafter : forall o st1,
               match lineOutcomes exec rest (lineNo + 1) st1 with
               | Some (outs0, st'0) => Some (o :: outs0, st'0)
               | None => None
               end = Some (outs, st') -> length outs = S (length rest)).
    { intros o st1. destruct (lineOutcomes exec rest (lineNo + 1) st1)
        as [[outs0 st0]|] eqn:E; [|done].
      intros [= <- _]. simpl. f_equal. by eapply IH. }
    destruct (isEmpty (trimmed line)); [apply Hafter|].
    destruct (CommandParser.parse (trimmed line)) as [c|parseError]; [|apply Hafter].
    destruct (exec c "" st) as [[[[] execMsg] st1]|]; [apply Hafter|apply Hafter|done].
Qed.

Lemma countOf_failed_zero (outs : list LineOutcome) :
  (countOf failed outs =? 0)%Z = true <-> Forall (fun o => failed o = false) outs.
Proof.
  induction outs as [|o outs IH].
  - split; [constructor|reflexivity].
  - rewrite countOf_cons. pose proof (countOf_nonneg failed outs) as Hnn.
    destruct (failed o) eqn:Ho.
    + split.
      * intros H%Z.eqb_eq. lia.
      * intros H. inversion H; congruence.
    + rewrite Z.add_0_l, IH. split.
      * intros H. by constructor.
      * intros H. by inversion H.
Qed.

Lemma countOf_failed_nonzero (outs : list LineOutcome) :
  (countOf failed outs =? 0)%Z = false <-> Exists (fun o => failed o = true) outs.
Proof.
  induction outs as [|o outs IH].
  - split; [done|]. by intros H%Exists_nil.
  - rewrite countOf_cons, Exists_cons.
    pose proof (countOf_nonneg failed outs) as Hnn.
    destruct (failed o) eqn:Ho.
    + split; [by left|]. intros _. apply Z.eqb_neq. lia.
    + rewrite Z.add_0_l, IH. split; [by right|]. by intros [?|?].
Qed.

(** A dispatcher that returns on every command makes every script return. *)
Lemma lineOutcomes_total (exec : Command -> string -> State -> option Result)
    (lines : list string) :
  (forall line c st,
      line ∈ lines -> CommandParser.parse (trimmed line) = Ok c ->
      is_Some (exec c "" st)) ->
  forall (lineNo : Z) (st : State), is_Some (lineOutcomes exec lines lineNo st).
Proof.
  induction lines as [|line rest IH]; intros Hexec lineNo st; simpl; [done|].
  assert (IH' : forall n st1, is_Some (lineOutcomes exec rest n st1)).
  { apply IH. intros l c s Hl. apply Hexec. by right. }
  assert (Hafter : forall (o : LineOutcome) st1,
             is_Some (match lineOutcomes exec rest (lineNo + 1) st1 with
                      | Some (outs0, st'0) => Some (o :: outs0, st'0)
                      | None => None
                      end)).
  { intros o st1. by destruct (IH' (lineNo + 1)%Z st1) as [[outs0 st0] ->]. }
  destruct (isEmpty (trimmed line)); [apply Hafter|].
  destruct (CommandParser.parse (trimmed line)) as [c|parseError] eqn:Hp;
    [|apply Hafter].
  destruct (Hexec line c st) as [[[[] execMsg] st1] ->]; [by left|done|..];
    apply Hafter.
Qed.

Lemma execute_total_when_not_file (h : Host) (fuel : nat) (c : Command)
    (message : string) (st : State) :
  name c <> "execute_file" ->
  is_Some (CommandDispatcher.execute h fuel c message st).
Proof.
  intros Hn. apply String.eqb_neq in Hn.
  destruct fuel; simpl; rewrite Hn;
    repeat (match goal with |- context [if ?b then _ else _] => destruct b end);
    done.
Qed.

(** C4. For a readable script, [execute_file] runs every line: its result is
    fixed by the outcomes of all the lines, one outcome per line, and it
    returns as soon as every dispatched line returns (always, when no line
    is itself an [execute_file]).  The flag is [true] exactly when no outcome
    is a failure, blank-only and empty scripts included; the message is the
    two counts followed by the incoming message (empty at every call site)
    and by the diagnostics of the failed lines, in line order. *)
Theorem execute_file_report
    (h : Host) (fuel : nat) (cmd : Command) (message : string) (st : State)
    (path : string) (lines : list string) :
  name cmd = "execute_file" ->
  args cmd !! "file_path" = Some path ->
  readLines h path = Some lines ->
  match lineOutcomes (CommandDispatcher.execute h fuel) lines 0 st with
  | None => CommandDispatcher.execute h (S fuel) cmd message st = None
  | Some (outs, st') =>
      length outs = length lines /\
      exists ok : bool,
        CommandDispatcher.execute h (S fuel) cmd message st
        = Some (ok, batchReport message outs, st') /\
        (ok = true <-> Forall (fun o => failed o = false) outs) /\
        (ok = false <-> Exists (fun o => failed o = true) outs)
  end /\
  (flatScript lines ->
   is_Some (CommandDispatcher.execute h (S fuel) cmd message st)).
Proof.
  intros Hn Hpath Hread.
  rewrite execute_execute_file by done.
  unfold CommandDispatcher.handleExecuteFile.
  rewrite Hpath, Hread, scriptLoop_outcomes.
  split.
  - destruct (lineOutcomes _ lines 0 st) as [[outs st']|] eqn:Hout; [|done].
    split; [by eapply lineOutcomes_length|].
    rewrite !Z.add_0_l.
    eexists; split; [reflexivity|]. split.
    + apply countOf_failed_zero.
    + apply countOf_failed_nonzero.
  - intros Hflat.
    destruct (lineOutcomes_total (CommandDispatcher.execute h fuel) lines) with
      (lineNo := 0%Z) (st := st) as [[outs st'] ->]; [|done].
    intros line c st1 Hl Hp. apply execute_total_when_not_file. by eapply Hflat.
Qed.

Lemma execute_file_report_witness :
  exists st',
    CommandDispatcher.execute withScripts 1 (executeFile "shapes.txt") "" initialState
    = Some (false,
            "Script executed: 3 successes, 2 failures." ++ nl
              ++ "Line 2 failed: Triangle vertices are collinear. Provide non-collinear points."
              ++ nl ++ "Line 4 parse error: Expected value after flag '-name'.",
            st').
Proof.
  pose proof (execute_file_report withScripts 0 (executeFile "shapes.txt") ""
                initialState "shapes.txt" shapesScript
                eq_refl eq_refl eq_refl) as [Hreport _].
  destruct (lineOutcomes (CommandDispatcher.execute withScripts 0) shapesScript 0
              initialState) as [[outs st']|] eqn:Hout; [|by vm_compute in Hout].
  exists st'. destruct Hreport as (_ & ok & -> & _ & Hfail).
  vm_compute in Hout. injection Hout as <- _.
  destruct ok; [|by vm_compute].
  exfalso. assert (Hf : true = false); [|discriminate Hf].
  apply Hfail. apply Exists_cons_tl, Exists_cons_hd. reflexivity.
Defined.

(** The bound on the nesting only decides whether a result is reached, never
    which one: a result reached within [fuel] nested scripts is the result
    with any larger bound. *)
Lemma scriptLoop_mono (exec exec' : Command -> string -> State -> option Result)
    (lines : list string) :
  (forall c m s r, exec c m s = Some r -> exec' c m s = Some r) ->
  forall (lineNo successCount failureCount : Z) (msg : string) (st : State) r,
    CommandDispatcher.scriptLoop exec lines lineNo successCount failureCount msg st
    = Some r ->
    CommandDispatcher.scriptLoop exec' lines lineNo successCount failureCount msg st
    = Some r.
Proof.
  intros Hext. induction lines as [|line rest IH]; intros lineNo sc fc msg st r;
    simpl; [done|].
  destruct (isEmpty (trimmed line)); [apply IH|].
  destruct (CommandParser.parse (trimmed line)) as [c|parseError]; [|apply IH].
  destruct (exec c "" st) as [[[ok execMsg] st1]|] eqn:Hc; [|done].
  rewrite (Hext _ _ _ _ Hc). destruct ok; apply IH.
Qed.

Lemma execute_fuel_mono (h : Host) (fuel : nat) :
  forall (cmd : Command) (message : string) (st : State) (r : Result),
    CommandDispatcher.execute h fuel cmd message st = Some r ->
    CommandDispatcher.execute h (S fuel) cmd message st = Some r.
Proof.
  induction fuel as [|fuel IH]; intros cmd message st r.
  - simpl. repeat (match goal with
                   | |- context [if ?b then _ else _] => destruct b; [done|]
                   end). done.
  - destruct (String.eqb (name cmd) "execute_file") eqn:Hn.
    + apply String.eqb_eq in Hn.
      rewrite !execute_execute_file by done.
      unfold CommandDispatcher.handleExecuteFile.
      destruct (args cmd !! "file_path") as [path|]; [|done].
      destruct (readLines h path) as [lines|]; [|done].
      destruct (CommandDispatcher.scriptLoop (CommandDispatcher.execute h fuel)
                  lines 0 0 0 message st) as [[[[sc fc] msg'] st']|] eqn:Hloop;
        [|done].
      by rewrite (scriptLoop_mono _ _ lines IH _ _ _ _ _ _ Hloop).
    + simpl. rewrite Hn.
      repeat (match goal with
              | |- context [if ?b then _ else _] => destruct b; [done|]
              end). done.
Qed.

(** A script that runs itself never returns: no bound on the nesting is
    enough. *)
Lemma self_running_script_diverges (fuel : nat) (message : string) (st : State) :
  CommandDispatcher.execute withScripts fuel (executeFile "loop.txt") message st = None.
Proof.
  revert message st. induction fuel as [|fuel IH]; intros message st; [reflexivity|].
  rewrite execute_execute_file by reflexivity.
  assert (Hpath : args (executeFile "loop.txt") !! "file_path" = Some "loop.txt")
    by reflexivity.
  assert (Hread : readLines withScripts "loop.txt"
                  = Some ["execute_file -file_path loop.txt"]) by reflexivity.
  assert (Hout : lineOutcomes (CommandDispatcher.execute withScripts fuel)
                   ["execute_file -file_path loop.txt"] 0 st = None).
  { assert (Hne : isEmpty (trimmed "execute_file -file_path loop.txt") = false)
      by reflexivity.
    assert (Hparse : CommandParser.parse (trimmed "execute_file -file_path loop.txt")
                     = Ok (executeFile "loop.txt")) by (vm_compute; reflexivity).
    unfold lineOutcomes. by rewrite Hne, Hparse, IH. }
  unfold CommandDispatcher.handleExecuteFile.
  by rewrite Hpath, Hread, scriptLoop_outcomes, Hout.
Qed.

(** *** Comment lines *)

(** A run of characters that has begun is a token, and the character it
    began with starts that token. *)
Lemma splitLoop_begun (l : list ascii) :
  forall (cur : list ascii) (c0 : ascii),
    exists s toks, splitLoop (cur ++ [c0])%list l = String c0 s :: toks.
Proof.
  induction l as [|c l IH]; intros cur c0; simpl.
  - destruct (cur ++ [c0])%list eqn:E; [by destruct cur|].
    rewrite <- E, rev_app_distr. simpl. eauto.
  - destruct (isRegexSpace c).
    + destruct (cur ++ [c0])%list eqn:E; [by destruct cur|].
      rewrite <- E, rev_app_distr. simpl. eauto.
    + apply (IH (c :: cur)).
Qed.

Lemma splitWhitespace_hash (rest : string) :
  exists s toks, splitWhitespace (String "#" rest) = String "#" s :: toks.
Proof.
  unfold splitWhitespace. simpl. apply (splitLoop_begun _ []).
Qed.

(** The loop over the flags never touches the command name. *)
Lemma parseTokens_name (tokens : list string) :
  (forall out out', CommandParser.parseTokens tokens out = Ok out' ->
                    name out' = name out) /\
  (forall t out out', CommandParser.parseTokens (t :: tokens) out = Ok out' ->
                      name out' = name out).
Proof.
  induction tokens as [|a l [IH1 IH2]].
  - split; [by intros out out' [= <-]|].
    intros t out out'. simpl.
    by destruct (startsWith t "-coord_"), (startsWith t "-").
  - split; [apply IH2|].
    intros t out out'. simpl.
    destruct (startsWith t "-coord_").
    + destruct (CommandParser.parseCoords a); [|done].
      intros H%IH1. by rewrite H.
    + destruct (startsWith t "-"); [|done].
      intros H%IH1. by rewrite H.
Qed.

Lemma parse_hash (rest : string) (c : Command) :
  CommandParser.parse (String "#" rest) = Ok c -> exists s, name c = String "#" s.
Proof.
  unfold CommandParser.parse.
  destruct (splitWhitespace_hash rest) as (s & toks & ->).
  destruct (CommandParser.parseTokens toks _) as [out|] eqn:Hp; [|done].
  apply parseTokens_name in Hp. simpl in Hp.
  destruct (isEmpty (name out)); [done|].
  intros [= <-]. eauto.
Qed.

Lemma execute_hash (h : Host) (fuel : nat) (c : Command) (message : string)
    (st : State) (s : string) :
  name c = String "#" s ->
  CommandDispatcher.execute h fuel c message st
  = Some (false, "Unknown command '" ++ name c ++ "'.", st).
Proof. intros Hn. destruct fuel; simpl; rewrite Hn; reflexivity. Qed.

(** C2. How [execute_file] treats one line.  A line that is blank after
    trimming is skipped: the rest of the script runs from the same state and
    the line adds an outcome that is neither a success nor a failure.  A line
    whose first non-space character is [#] is not skipped: it goes to the
    parser and, if it parses, to the dispatcher, and its outcome is always a
    failure; the state is left as it was.  README.md says such lines are
    ignored. *)
Theorem blank_skipped_comment_counted
    (h : Host) (fuel : nat) (line : string) (rest : list string) (lineNo : Z)
    (st : State) :
  let exec := CommandDispatcher.execute h fuel in
  let after (o : LineOutcome) :=
    match lineOutcomes exec rest (lineNo + 1) st with
    | Some (outs, st') => Some (o :: outs, st')
    | None => None
    end in
  (isEmpty (trimmed line) = true ->
   lineOutcomes exec (line :: rest) lineNo st = after Skipped) /\
  (forall comment, trimmed line = String "#" comment ->
     exists o, failed o = true /\
               lineOutcomes exec (line :: rest) lineNo st = after o).
Proof.
  intros exec after. split.
  - intros He. simpl. by rewrite He.
  - intros comment Hc. simpl. rewrite Hc. simpl isEmpty. cbv iota.
    destruct (CommandParser.parse (String "#" comment)) as [c|parseError] eqn:Hp.
    + destruct (parse_hash _ _ Hp) as [s Hs].
      unfold exec. rewrite (execute_hash _ _ _ _ _ _ Hs).
      by eexists (DispatchFailed _ _).
    + by eexists (ParseFailed _ _).
Qed.

Lemma blank_skipped_comment_counted_witness :
  exists o,
    failed o = true /\
    lineOutcomes (CommandDispatcher.execute withScripts 0) notesScript 0 initialState
    = Some ([o; Skipped; Succeeded], stateWithLine).
Proof.
  destruct (proj2 (blank_skipped_comment_counted withScripts 0
                     "# the shapes of the demo" (tl notesScript) 0 initialState)
              " the shapes of the demo" eq_refl) as (o & Ho & Hrun).
  exists o. split; [exact Ho|].
  etransitivity; [exact Hrun|]. vm_compute. reflexivity.
Defined.

(** The script [notes.txt] run from the start-up state: its comment line is
    reported as a parse error and the call returns [false]. *)
Example notes_script_report :
  CommandDispatcher.execute withScripts 1 (executeFile "notes.txt") "" initialState
  = Some (false,
          "Script executed: 1 successes, 1 failures." ++ nl
            ++ "Line 1 parse error: Unexpected token 'the'. Flags should start with '-'.",
          stateWithLine).
Proof. vm_compute. reflexivity. Qed.

(** ** Facts about doubles

    The operations on doubles are primitive; what is known of them is their
    agreement with the reference implementation of IEEE 754 binary64 on
    [spec_float].  The lemmas below are read off that implementation. *)

Module FloatFacts.

(** The specification-level view of a double, and what the class tests of
    [PrimFloat] say about it. *)

Lemma SFcompare_refl (s : spec_float) :
  SFcompare s s = match s with S754_nan => None | _ => Some Eq end.
Proof.
  destruct s as [[]|[]| |[] m e]; simpl; try reflexivity;
    rewrite Z.compare_refl, Pos.compare_cont_refl; reflexivity.
Qed.

Lemma ltb_irrefl (x : float) : (x <? x)%float = false.
Proof.
  rewrite ltb_spec. unfold SFltb. rewrite SFcompare_refl.
  destruct (Prim2SF x); reflexivity.
Qed.

Lemma finite_cases (x : float) :
  is_finite x = true ->
  (exists s, Prim2SF x = S754_zero s) \/ (exists s m e, Prim2SF x = S754_finite s m e).
Proof.
  unfold is_finite, is_nan, is_infinity.
  rewrite !FloatAxioms.eqb_spec, abs_spec. unfold SFeqb. rewrite SFcompare_refl.
  destruct (Prim2SF x) as [s|s| |s m e]; simpl; try discriminate; eauto.
Qed.

Lemma eqb_refl_finite (x : float) : is_finite x = true -> (x =? x)%float = true.
Proof.
  intros H. rewrite FloatAxioms.eqb_spec. unfold SFeqb. rewrite SFcompare_refl.
  destruct (finite_cases x H) as [[s ->]|(s & m & e & ->)]; reflexivity.
Qed.

Lemma sub_diag_finite (x : float) : is_finite x = true -> (x - x)%float = 0%float.
Proof.
  intros H. apply Prim2SF_inj. rewrite sub_spec.
  destruct (finite_cases x H) as [[s ->]|(s & m & e & ->)].
  - destruct s; reflexivity.
  - unfold SF64sub, SFsub. rewrite Z.sub_diag. reflexivity.
Qed.

(** *** Subtraction in the two orders *)

Lemma binary_round_aux_opp (s : bool) (m e : Z) (l : location) :
  binary_round_aux prec emax (negb s) m e l
  = SFopp (binary_round_aux prec emax s m e l).
Proof.
  unfold binary_round_aux.
  destruct (shr_fexp prec emax m e l) as [mrs' e'].
  destruct (shr_fexp prec emax _ e' loc_Exact) as [mrs'' e''].
  destruct (shr_m mrs''); [reflexivity| |reflexivity].
  destruct (e'' <=? emax - prec)%Z; reflexivity.
Qed.

Lemma binary_normalize_opp (n e : Z) :
  n <> 0%Z ->
  binary_normalize prec emax (- n) e false
  = SFopp (binary_normalize prec emax n e false).
Proof.
  intros Hn. destruct n as [|p|p]; [done| |]; simpl;
    unfold binary_round;
    destruct (shl_align p e _) as [mz ez].
  - apply (binary_round_aux_opp false).
  - rewrite (binary_round_aux_opp false). by destruct (binary_round_aux _ _ _ _ _ _) as [[]|[]| |[] ? ?].
Qed.

Lemma SFsub_mirrored (s t : spec_float) :
  mirrored (SF64sub s t) (SF64sub t s).
Proof.
  unfold mirrored, SF64sub.
  destruct s as [sx|sx| |sx mx ex], t as [sy|sy| |sy my ey]; simpl;
    try (destruct sx, sy; simpl; auto; fail);
    try (destruct sx; simpl; auto; fail);
    try (destruct sy; simpl; auto; fail); auto.
  rewrite (Z.min_comm ey ex).
  set (A := cond_Zopp sx _). set (B := cond_Zopp sy _).
  destruct (Z.eq_dec (A - B)%Z 0%Z) as [H0|H0].
  - right. replace (B - A)%Z with 0%Z by lia. rewrite H0. split; reflexivity.
  - left. replace (B - A)%Z with (- (A - B))%Z by lia.
    by apply binary_normalize_opp.
Qed.

Lemma SFmul_mirrored (u v : spec_float) :
  mirrored u v -> SF64mul v v = SF64mul u u.
Proof.
  intros [-> | [-> ->]]; [|reflexivity].
  destruct u as [[]|[]| |[] m e]; reflexivity.
Qed.

Lemma square_sub_sym (a b : float) :
  ((b - a) * (b - a))%float = ((a - b) * (a - b))%float.
Proof.
  apply Prim2SF_inj. rewrite !mul_spec, !sub_spec.
  apply SFmul_mirrored, SFsub_mirrored.
Qed.

(** *** A square root that is not zero *)

Abbreviation emin := (SpecFloat.emin prec emax).










End FloatFacts.

(** ** What the parser can produce *)

Lemma opp_finite (d : float) : is_finite d = true -> is_finite (- d) = true.
Proof.
  intros H. destruct (FloatFacts.finite_cases d H) as [[s Hs]|(s & m & e & Hs)];
    unfold is_finite, is_nan, is_infinity;
    rewrite !FloatAxioms.eqb_spec, abs_spec, opp_spec, Hs;
    change (Prim2SF infinity) with (S754_infinity false);
    unfold SFeqb; rewrite FloatFacts.SFcompare_refl; by destruct s.
Qed.

Lemma toDouble_finite (s : string) (v : float) :
  toDouble s = Some v -> is_finite v = true.
Proof.
  unfold toDouble.
  destruct (match chars s with
            | "-"%char :: body => (true, body)
            | body => (false, body)
            end) as [negative body].
  destruct (span isDigit body) as [int_digits rest].
  destruct int_digits as [|c int_digits]; [done|].
  destruct (match rest with
            | "."%char :: ds => Some ds
            | [] => Some []
            | _ => None
            end) as [ds|]; [|done].
  destruct (negb (forallb isDigit ds)); [done|].
  set (d := roundDecimal _ _).
  destruct (is_finite d) eqn:Hd; [|done]. simpl.
  destruct (is_zero d && _); [done|].
  intros [= <-]. destruct negative; [by apply opp_finite|done].
Qed.

Lemma parseCoords_finite (token : string) (p : QPointF) :
  CommandParser.parseCoords token = Ok p -> finitePoint p = true.
Proof.
  unfold CommandParser.parseCoords.
  destruct (CommandParser.matchCoords token) as [[c1 c2]|]; [|done].
  destruct (toDouble c1) as [x|] eqn:Hx; [|done].
  destruct (toDouble c2) as [y|] eqn:Hy; [|done].
  intros [= <-]. unfold finitePoint. simpl.
  by rewrite (toDouble_finite _ _ Hx), (toDouble_finite _ _ Hy).
Qed.

Lemma parseTokens_finite (tokens : list string) :
  (forall out out', coordsFinite out ->
                    CommandParser.parseTokens tokens out = Ok out' ->
                    coordsFinite out') /\
  (forall t out out', coordsFinite out ->
                      CommandParser.parseTokens (t :: tokens) out = Ok out' ->
                      coordsFinite out').
Proof.
  induction tokens as [|a l [IH1 IH2]].
  - split; [by intros out out' ? [= <-]|].
    intros t out out' _. simpl.
    by destruct (startsWith t "-coord_"), (startsWith t "-").
  - split; [apply IH2|].
    intros t out out' Hout. simpl.
    destruct (startsWith t "-coord_").
    + destruct (CommandParser.parseCoords a) as [pt|] eqn:Hpt; [|done].
      apply IH1. intros key p. simpl.
      destruct (decide (mid1 t = key)) as [->|Hne].
      * rewrite lookup_insert_eq. intros [= <-]. by eapply parseCoords_finite.
      * rewrite lookup_insert_ne by done. apply Hout.
    + destruct (startsWith t "-"); [|done].
      apply IH1. intros key p. simpl. apply Hout.
Qed.

(** The coordinates of a parsed command are finite doubles. *)
Lemma parsed_coordinates_finite (raw : string) (c : Command) :
  CommandParser.parse raw = Ok c -> coordsFinite c.
Proof.
  unfold CommandParser.parse.
  destruct (splitWhitespace raw) as [|first tokens]; [done|].
  destruct (CommandParser.parseTokens tokens _) as [out|] eqn:Hp; [|done].
  destruct (isEmpty (name out)); [done|]. intros [= <-].
  eapply (proj1 (parseTokens_finite tokens)); [|exact Hp].
  intros key p. simpl. by rewrite lookup_empty.
Qed.

(** ** Degenerate rectangles *)

Lemma pointLess_irrefl (p : QPointF) : Utility.pointLess p p = false.
Proof.
  unfold Utility.pointLess. rewrite !FloatFacts.ltb_irrefl.
  by destruct (px p =? px p)%float.
Qed.

Lemma sorted4_same (p : QPointF) : Utility.sorted4 p p p p = (p, p, p, p).
Proof.
  unfold Utility.sorted4, std_sort. simpl.
  repeat (rewrite pointLess_irrefl; simpl). reflexivity.
Qed.

Lemma sub_same (p : QPointF) : finitePoint p = true -> Utility.sub p p = Pt 0 0.
Proof.
  intros [Hx Hy]%andb_prop. unfold Utility.sub.
  by rewrite !FloatFacts.sub_diag_finite.
Qed.

Lemma isRectangle_same (p : QPointF) :
  finitePoint p = true -> Utility.isRectangle p p p p Utility.eps_default = true.
Proof.
  intros Hp. unfold Utility.isRectangle. rewrite sorted4_same.
  unfold Utility.isRightAngle, Utility.dist2. rewrite (sub_same p Hp).
  reflexivity.
Qed.

(** C9 (as stated) fails at the point (+infinity, 0): the differences of its
    coordinates are NaN, and no comparison with a NaN holds. *)
Lemma isRectangle_rejects_far_point :
  finitePoint farPoint = false /\
  Utility.isRectangle farPoint farPoint farPoint farPoint Utility.eps_default = false.
Proof. split; reflexivity. Qed.

(** C9 (as amended). For every point [p] with finite coordinates,
    [isRectangle p p p p] holds with the default tolerance; so a
    [create_rectangle] command with a usable fresh name and with [p] for each
    of [coord_1] .. [coord_4] succeeds, when [p] is finite or when the
    command was parsed from text, and registers a rectangle whose stored and
    rendered corners are all [p]. *)
Theorem degenerate_rectangle_accepted
    (h : Host) (fuel : nat) (cmd : Command) (message : string) (st : State)
    (value : string) (p : QPointF) :
  (finitePoint p = true ->
   Utility.isRectangle p p p p Utility.eps_default = true) /\
  (finitePoint p = true \/ (exists raw, CommandParser.parse raw = Ok cmd) ->
   name cmd = "create_rectangle" ->
   args cmd !! "name" = Some value ->
   isEmpty (trimmed value) = false ->
   m_repo st !! trimmed value = None ->
   CommandDispatcher.hasFour cmd = Some (p, p, p, p) ->
   exists shape,
     CommandDispatcher.execute h fuel cmd message st
     = Some (true,
             "Rectangle '" ++ trimmed value ++ "' created from four corners.",
             CommandDispatcher.addShape st (trimmed value) shape) /\
     kind shape = Rectangle /\
     m_pts shape = [p; p; p; p] /\
     polygon_of shape = [p; p; p; p]).
Proof.
  split; [apply isRectangle_same|].
  intros Hfinite Hn Hv He Hfresh H4.
  assert (Hp : finitePoint p = true).
  { destruct Hfinite as [Hp|[raw Hraw]]; [exact Hp|].
    apply (parsed_coordinates_finite raw cmd Hraw "coord_1").
    unfold CommandDispatcher.hasFour in H4.
    destruct (coords cmd !! "coord_1"), (coords cmd !! "coord_2"),
      (coords cmd !! "coord_3"), (coords cmd !! "coord_4"); try done.
    by injection H4 as -> _ _ _. }
  rewrite execute_create_rectangle by done.
  unfold CommandDispatcher.handleCreateRectangle.
  rewrite (requireName_ok _ _ Hv He); simpl.
  rewrite (validateUniqueName_fresh _ _ Hfresh); simpl.
  rewrite H4, (isRectangle_same p Hp). simpl.
  eexists; split; [reflexivity|].
  destruct (RectangleShape_corners_polygon (trimmed value) p p p p) as [Hpoly Hpts].
  split; [reflexivity|]. split; [exact Hpts|].
  rewrite Hpoly. unfold boundingBox, boxCorners, least, greatest. simpl.
  rewrite !qMin_same, !qMax_same. by destruct p.
Qed.

Lemma degenerate_rectangle_accepted_witness :
  Utility.isRectangle (Pt 1 1) (Pt 1 1) (Pt 1 1) (Pt 1 1) Utility.eps_default = true /\
  exists shape,
    CommandDispatcher.execute noFiles 0
      (fourPointCommand "create_rectangle" "dot" (Pt 1 1) (Pt 1 1) (Pt 1 1) (Pt 1 1))
      "" initialState
    = Some (true, "Rectangle 'dot' created from four corners.",
            CommandDispatcher.addShape initialState "dot" shape) /\
    kind shape = Rectangle /\
    m_pts shape = [Pt 1 1; Pt 1 1; Pt 1 1; Pt 1 1] /\
    polygon_of shape = [Pt 1 1; Pt 1 1; Pt 1 1; Pt 1 1].
Proof.
  destruct (degenerate_rectangle_accepted noFiles 0
              (fourPointCommand "create_rectangle" "dot" (Pt 1 1) (Pt 1 1) (Pt 1 1) (Pt 1 1))
              "" initialState "dot" (Pt 1 1)) as [Hrect Hcreate].
  split; [apply Hrect; reflexivity|].
  apply Hcreate; [left|..]; reflexivity.
Defined.

(** ** Squares from a diagonal *)





(** ** Centers

    [LineShape::center] halves the double sum of the two end points.  The
    lemmas below show, from the IEEE 754 specification of the sum and of the
    quotient, that this is the double nearest to the exact midpoint whenever
    the sum does not overflow. *)

Lemma is_finite_spec (x : float) : is_finite x = SFfinite (Prim2SF x).
Proof.
  unfold is_finite, is_nan, is_infinity.
  rewrite !FloatAxioms.eqb_spec, abs_spec.
  change (Prim2SF infinity) with (S754_infinity false).
  unfold SFeqb. rewrite FloatFacts.SFcompare_refl.
  by destruct (Prim2SF x) as [[]|[]| |[] m e].
Qed.

(** *** Halving a rounded sum *)

Module Halving.
Local Open Scope Z_scope.


































End Halving.




(** ** The end-to-end scenarios of the specification, from the typed text *)

Example scenario_line :
  onCommandEntered noFiles 0 "create_line -name l1 -coord_1 {0,0} -coord_2 {5,2}"
    initialState
  = Some (true, "Line 'l1' created.", stateWithLine) /\
  center noFiles <$> (m_repo stateWithLine !! "l1") = Some (Pt 2.5 1).
Proof. split; vm_compute; reflexivity. Qed.

Example scenario_triangle :
  exists st,
    onCommandEntered noFiles 0
      "create_triangle -name t1 -coord_1 {0,0} -coord_2 {3,0} -coord_3 {0,4}"
      initialState
    = Some (true, "Triangle 't1' created.", st) /\
    center noFiles <$> (m_repo st !! "t1") = Some (Pt 1 (4 / 3)).
Proof. eexists. split; vm_compute; reflexivity. Qed.

Example scenario_flat_rectangle :
  onCommandEntered noFiles 0 "create_rectangle -name r1 -coord_1 {0,0} -coord_2 {3,0}"
    initialState
  = Some (false, "Diagonal points must differ in both x and y for a valid rectangle.",
          initialState).
Proof. vm_compute. reflexivity. Qed.

Example scenario_connect_missing :
  onCommandEntered noFiles 0 "connect -object_name_1 l1 -object_name_2 r_missing"
    stateWithLine
  = Some (false, "One or both objects not found.", stateWithLine).
Proof. vm_compute. reflexivity. Qed.

(** A coordinate typed with a space inside the braces is two tokens, and the
    first of them is not a coordinate. *)
Example coordinate_with_space :
  CommandParser.parse "create_line -name l1 -coord_1 {0, 0} -coord_2 {5,2}"
  = Err "Invalid coordinate format '{0,'. Expected {x,y}.".
Proof. vm_compute. reflexivity. Qed.

(** The ends of the huge diagonal can be typed: two hundred zeros after a
    one are within the pattern of a coordinate. *)
Example huge_diagonal_from_text :
  CommandParser.parseCoords ("{" ++ oneAndZeros 200 ++ ",0}") = Ok hugeEnd1 /\
  CommandParser.parseCoords ("{-" ++ oneAndZeros 200 ++ ",0}") = Ok hugeEnd2 /\
  onCommandEntered noFiles 0
    ("create_square -name s1 -coord_1 {" ++ oneAndZeros 200
       ++ ",0} -coord_2 {-" ++ oneAndZeros 200 ++ ",0}")
    initialState
  = Some (true, "Square 's1' created from diagonal points.",
          CommandDispatcher.addShape initialState "s1"
            (SquareShape_diagonal "s1" hugeEnd1 hugeEnd2)).
Proof. repeat split; vm_compute; reflexivity. Qed.

(** * Further properties of the code *)

Set Warnings "-clear-no-such-hyp".

(** ** Geometry: symmetries of the predicates *)

Lemma SFmul_comm (s t : spec_float) : SF64mul s t = SF64mul t s.
Proof.
  unfold SF64mul, SFmul.
  destruct s as [sx|sx| |sx mx ex], t as [sy|sy| |sy my ey];
    try reflexivity; try (by rewrite xorb_comm).
  by rewrite xorb_comm, Pos.mul_comm, Z.add_comm.
Qed.

Lemma mul_comm (a b : float) : (a * b)%float = (b * a)%float.
Proof. apply Prim2SF_inj. rewrite !mul_spec. apply SFmul_comm. Qed.

Lemma SFabs_mirrored (u v : spec_float) : mirrored u v -> SFabs v = SFabs u.
Proof. intros [-> | [-> ->]]; [by destruct u|reflexivity]. Qed.

Lemma abs_sub_sym (a b : float) : abs (b - a) = abs (a - b).
Proof.
  apply Prim2SF_inj. rewrite !abs_spec, !sub_spec.
  apply SFabs_mirrored, FloatFacts.SFsub_mirrored.
Qed.

Lemma dot_comm (a b : QPointF) : Utility.dot a b = Utility.dot b a.
Proof.
  unfold Utility.dot. by rewrite (mul_comm (px a)), (mul_comm (py a)).
Qed.

(** X1. The squared distance does not depend on the order of its two points,
    bit for bit, for all doubles; so [isValidSquareDiagonal] gives the same
    answer for a diagonal and for the reversed diagonal. *)
Theorem dist2_symmetric (a b : QPointF) (eps : float) :
  Utility.dist2 a b = Utility.dist2 b a /\
  Utility.isValidSquareDiagonal a b eps = Utility.isValidSquareDiagonal b a eps.
Proof.
  assert (H : Utility.dist2 a b = Utility.dist2 b a).
  { unfold Utility.dist2, Utility.sub. simpl.
    by rewrite (FloatFacts.square_sub_sym (px a)), (FloatFacts.square_sub_sym (py a)). }
  split; [exact H|]. unfold Utility.isValidSquareDiagonal. by rewrite H.
Qed.

(** X2. The right-angle test at a corner does not depend on the order of the
    two neighbours: [isRightAngle a b c] and [isRightAngle c b a] agree for
    all doubles.  The two pairings that [isRectangle] tries at each extreme
    corner are therefore one test. *)
Theorem isRightAngle_symmetric (a b c : QPointF) (eps : float)
    (p1 p2 p3 p4 : QPointF) :
  Utility.isRightAngle a b c eps = Utility.isRightAngle c b a eps /\
  Utility.isRectangle p1 p2 p3 p4 eps
  = (let '(A, B, C, D) := Utility.sorted4 p1 p2 p3 p4 in
     Utility.isRightAngle B A C eps && Utility.isRightAngle B D C eps
     && ((qFabs (Utility.dist2 A B - Utility.dist2 C D) <? eps)%float
         && (qFabs (Utility.dist2 A C - Utility.dist2 B D) <? eps)%float)).
Proof.
  assert (H : forall a b c, Utility.isRightAngle a b c eps
                            = Utility.isRightAngle c b a eps).
  { intros a' b' c'. unfold Utility.isRightAngle. by rewrite dot_comm. }
  split; [apply H|]. unfold Utility.isRectangle.
  destruct (Utility.sorted4 p1 p2 p3 p4) as [[[A B] C] D].
  by rewrite <- (H B A C), <- (H B D C), !orb_diag.
Qed.

(** X3. The collinearity test does not depend on the order of its second and
    third point: the cross product changes sign only, and the test looks at
    its magnitude. *)
Theorem areCollinear_swap (a b c : QPointF) (eps : float) :
  Utility.areCollinear a b c eps = Utility.areCollinear a c b eps.
Proof.
  unfold Utility.areCollinear, Utility.sub, qFabs. simpl.
  rewrite (mul_comm (px c - px a) (py b - py a)).
  rewrite (mul_comm (py c - py a) (px b - px a)).
  by rewrite abs_sub_sym.
Qed.

(** ** Geometry: only finite points pass *)

Lemma abs_below_finite (x eps : float) :
  (qFabs x <? eps)%float = true -> is_finite x = true.
Proof.
  unfold qFabs. rewrite ltb_spec, abs_spec, is_finite_spec.
  destruct (Prim2SF x) as [s|s| |s m e]; try done.
  unfold SFltb; simpl. by destruct (Prim2SF eps) as [|[]| |].
Qed.

Lemma add_finite_inv (x y : float) :
  is_finite (x + y) = true -> is_finite x = true /\ is_finite y = true.
Proof.
  rewrite !is_finite_spec, add_spec. unfold SF64add, SFadd.
  destruct (Prim2SF x) as [sx|sx| |sx mx ex], (Prim2SF y) as [sy|sy| |sy my ey];
    try done; by destruct sx, sy.
Qed.

Lemma sub_finite_inv (x y : float) :
  is_finite (x - y) = true -> is_finite x = true /\ is_finite y = true.
Proof.
  rewrite !is_finite_spec, sub_spec. unfold SF64sub, SFsub.
  destruct (Prim2SF x) as [sx|sx| |sx mx ex], (Prim2SF y) as [sy|sy| |sy my ey];
    try done; by destruct sx, sy.
Qed.

Lemma mul_finite_inv (x y : float) :
  is_finite (x * y) = true -> is_finite x = true /\ is_finite y = true.
Proof.
  rewrite !is_finite_spec, mul_spec. unfold SF64mul, SFmul.
  by destruct (Prim2SF x) as [sx|sx| |sx mx ex], (Prim2SF y) as [sy|sy| |sy my ey].
Qed.

Lemma isRightAngle_finite (a b c : QPointF) (eps : float) :
  Utility.isRightAngle a b c eps = true ->
  finitePoint a = true /\ finitePoint b = true /\ finitePoint c = true.
Proof.
  unfold Utility.isRightAngle, Utility.dot, Utility.sub, finitePoint. simpl.
  intros H%abs_below_finite.
  apply add_finite_inv in H as [[Hx1 Hx2]%mul_finite_inv [Hy1 Hy2]%mul_finite_inv].
  apply sub_finite_inv in Hx1 as [-> ->], Hy1 as [-> ->].
  apply sub_finite_inv in Hx2 as [-> _], Hy2 as [-> _]. done.
Qed.

(** The insertion sort returns its input, reordered. *)
Lemma unguarded_linear_insert_perm {A : Type} (comp : A -> A -> bool) (val : A)
    (l : list A) :
  unguarded_linear_insert comp val l ≡ₚ val :: l.
Proof.
  induction l as [|next rest IH]; simpl; [done|].
  destruct (comp val next); [|done].
  rewrite IH. apply perm_swap.
Qed.

Lemma insertion_step_perm {A : Type} (comp : A -> A -> bool) (prefix : list A)
    (val : A) :
  insertion_step comp prefix val ≡ₚ val :: prefix.
Proof.
  unfold insertion_step. destruct prefix as [|first rest]; [done|].
  destruct (comp val first); [done|].
  rewrite <- Permutation_rev, unguarded_linear_insert_perm.
  by rewrite <- Permutation_rev.
Qed.

Lemma std_sort_perm {A : Type} (comp : A -> A -> bool) (l : list A) :
  std_sort comp l ≡ₚ l.
Proof.
  unfold std_sort.
  assert (H : forall acc, fold_left (insertion_step comp) l acc ≡ₚ acc ++ l).
  { induction l as [|a l IH]; intros acc; simpl; [by rewrite app_nil_r|].
    rewrite IH, insertion_step_perm. simpl. apply Permutation_middle. }
  apply (H []).
Qed.

Lemma sorted4_perm (p1 p2 p3 p4 : QPointF) :
  let '(A, B, C, D) := Utility.sorted4 p1 p2 p3 p4 in
  [A; B; C; D] ≡ₚ [p1; p2; p3; p4].
Proof.
  unfold Utility.sorted4.
  pose proof (std_sort_perm Utility.pointLess [p1; p2; p3; p4]) as Hperm.
  pose proof (Permutation_length Hperm) as Hlen.
  destruct (std_sort Utility.pointLess [p1; p2; p3; p4])
    as [|A [|B [|C [|D [|E l]]]]]; try done.
Qed.

Lemma isRectangle_sorted_finite (A B C D : QPointF) (eps : float) :
  (Utility.isRightAngle B A C eps || Utility.isRightAngle C A B eps)
  && (Utility.isRightAngle B D C eps || Utility.isRightAngle C D B eps) = true ->
  Forall (fun p => finitePoint p = true) [A; B; C; D].
Proof.
  intros [HA HD]%andb_prop.
  apply orb_prop in HA, HD.
  assert (HABC : finitePoint A = true /\ finitePoint B = true /\ finitePoint C = true).
  { destruct HA as [H|H]; apply isRightAngle_finite in H; tauto. }
  assert (HD' : finitePoint D = true).
  { destruct HD as [H|H]; apply isRightAngle_finite in H; tauto. }
  destruct HABC as (? & ? & ?). by repeat constructor.
Qed.

(** X4. [isRectangle] and [isSquare] accept only finite points: whenever one
    of them returns [true], with any tolerance, none of the eight coordinates
    is a NaN or an infinity. *)
Theorem accepted_corners_finite (p1 p2 p3 p4 : QPointF) (eps : float) :
  Utility.isRectangle p1 p2 p3 p4 eps = true \/
  Utility.isSquare p1 p2 p3 p4 eps = true ->
  Forall (fun p => finitePoint p = true) [p1; p2; p3; p4].
Proof.
  assert (Hrect : forall q1 q2 q3 q4,
             Utility.isRectangle q1 q2 q3 q4 eps = true ->
             Forall (fun p => finitePoint p = true) [q1; q2; q3; q4]).
  { intros q1 q2 q3 q4. unfold Utility.isRectangle.
    pose proof (sorted4_perm q1 q2 q3 q4) as Hperm.
    destruct (Utility.sorted4 q1 q2 q3 q4) as [[[A B] C] D].
    intros [H _]%andb_prop. rewrite <- Hperm.
    by apply (isRectangle_sorted_finite A B C D eps). }
  intros [H|H]; [by apply Hrect|].
  unfold Utility.isSquare in H.
  pose proof (sorted4_perm p1 p2 p3 p4) as Hperm.
  destruct (Utility.sorted4 p1 p2 p3 p4) as [[[A B] C] D].
  destruct (Utility.isRectangle A B C D eps) eqn:HR; [|done].
  rewrite <- Hperm. by apply Hrect.
Qed.

Lemma accepted_corners_finite_witness :
  Forall (fun p => finitePoint p = true) [Pt 0 0; Pt 3 0; Pt 3 2; Pt 0 2].
Proof.
  apply (accepted_corners_finite (Pt 0 0) (Pt 3 0) (Pt 3 2) (Pt 0 2)
           Utility.eps_default).
  left. reflexivity.
Defined.

(** ** The parser *)

Lemma chars_text (l : list ascii) : chars (text l) = l.
Proof. apply list_ascii_of_string_of_list_ascii. Qed.

Lemma isEmpty_text (l : list ascii) : isEmpty (text l) = match l with [] => true | _ => false end.
Proof. by destruct l. Qed.

Lemma tokenText_run (cur : list ascii) :
  cur <> [] ->
  forallb (fun c => negb (isRegexSpace c)) cur = true ->
  tokenText (text (rev cur)) = true.
Proof.
  intros Hne Hcur. unfold tokenText. rewrite isEmpty_text, chars_text.
  assert (Hrev : forallb (fun c => negb (isRegexSpace c)) (rev cur) = true).
  { rewrite forallb_forall in *. intros c Hc. apply Hcur. by apply in_rev. }
  rewrite Hrev. destruct (rev cur) eqn:E; [|done].
  apply (f_equal (@rev ascii)) in E. rewrite rev_involutive in E. done.
Qed.

(** Every piece that the split yields is a token. *)
Lemma splitLoop_tokens (l : list ascii) :
  forall cur : list ascii,
    forallb (fun c => negb (isRegexSpace c)) cur = true ->
    Forall (fun t => tokenText t = true) (splitLoop cur l).
Proof.
  induction l as [|c l IH]; intros cur Hcur; simpl.
  - destruct cur as [|c0 cur']; [constructor|].
    constructor; [|constructor]. by apply tokenText_run.
  - destruct (isRegexSpace c) eqn:Hc.
    + destruct cur as [|c0 cur']; [by apply IH|].
      constructor; [by apply tokenText_run | by apply IH].
    + apply IH. simpl. by rewrite Hc.
Qed.

Lemma splitWhitespace_tokens (raw : string) :
  Forall (fun t => tokenText t = true) (splitWhitespace raw).
Proof. by apply splitLoop_tokens. Qed.

Lemma splitLoop_blank (l : list ascii) :
  forallb isRegexSpace l = true -> splitLoop [] l = [].
Proof.
  induction l as [|c l IH]; simpl; [done|].
  intros [-> Hl]%andb_prop. by apply IH.
Qed.

Lemma splitLoop_not_blank (l : list ascii) :
  forall cur : list ascii,
    splitLoop cur l = [] -> cur = [] /\ forallb isRegexSpace l = true.
Proof.
  induction l as [|c l IH]; intros cur; simpl.
  - by destruct cur.
  - destruct (isRegexSpace c).
    + destruct cur; [|done]. intros H. by destruct (IH [] H).
    + intros H. by destruct (IH _ H).
Qed.

Lemma parseCoords_error_head (token e : string) :
  CommandParser.parseCoords token = Err e -> flagErrorHead e.
Proof.
  unfold CommandParser.parseCoords, flagErrorHead.
  destruct (CommandParser.matchCoords token) as [[c1 c2]|].
  - destruct (toDouble c1), (toDouble c2); try done; intros [= <-]; tauto.
  - intros [= <-]. tauto.
Qed.

Lemma parseTokens_error_head (tokens : list string) :
  (forall out e, CommandParser.parseTokens tokens out = Err e -> flagErrorHead e) /\
  (forall t out e, CommandParser.parseTokens (t :: tokens) out = Err e ->
                   flagErrorHead e).
Proof.
  induction tokens as [|a l [IH1 IH2]].
  - split; [done|]. intros t out e. simpl.
    destruct (startsWith t "-coord_"); [intros [= <-]; by left|].
    destruct (startsWith t "-"); intros [= <-]; unfold flagErrorHead; simpl; tauto.
  - split; [apply IH2|]. intros t out e. simpl.
    destruct (startsWith t "-coord_").
    + destruct (CommandParser.parseCoords a) as [pt|e'] eqn:Hpt; [apply IH1|].
      intros [= <-]. by eapply parseCoords_error_head.
    + destruct (startsWith t "-"); [apply IH1|].
      intros [= <-]. unfold flagErrorHead; simpl; tauto.
Qed.

(** X5. The parser fails with "No tokens found in the command." exactly on
    the texts made of white space only, the empty text included; no other
    failure of the parser uses that message. *)
Theorem parse_blank (raw : string) :
  CommandParser.parse raw = Err "No tokens found in the command."
  <-> blankText raw = true.
Proof.
  unfold CommandParser.parse, splitWhitespace, blankText. split.
  - destruct (splitLoop [] (chars raw)) as [|first tokens] eqn:Hs.
    + intros _. by destruct (splitLoop_not_blank _ _ Hs).
    + destruct (CommandParser.parseTokens tokens _) as [out|e] eqn:Hp.
      * by destruct (isEmpty (name out)).
      * intros [= ->]. apply parseTokens_error_head in Hp.
        by destruct Hp as [H|[H|[H|H]]].
  - intros H. by rewrite (splitLoop_blank _ H).
Qed.

(** X6. A parsed command carries the first token of the text as its name:
    the name is never empty and holds no white space, and every other token
    of the text is a token in the same sense.  The parser's closing test for
    an empty command name can therefore never fire. *)
Theorem parse_name_is_first_token (raw : string) :
  CommandParser.parse raw <> Err "Command name is empty." /\
  (forall c, CommandParser.parse raw = Ok c ->
             tokenText (name c) = true /\
             exists tokens, splitWhitespace raw = name c :: tokens).
Proof.
  unfold CommandParser.parse.
  pose proof (splitWhitespace_tokens raw) as Htok.
  destruct (splitWhitespace raw) as [|first tokens]; [done|].
  apply Forall_cons in Htok as [Hfirst _].
  destruct (CommandParser.parseTokens tokens _) as [out|e] eqn:Hp.
  - apply parseTokens_name in Hp. simpl in Hp.
    assert (Hne : isEmpty (name out) = false).
    { rewrite Hp. unfold tokenText in Hfirst.
      by destruct (isEmpty first). }
    rewrite Hne. split; [done|].
    intros c [= <-]. rewrite Hp. eauto.
  - split; [|done]. intros [= ->]. apply parseTokens_error_head in Hp.
    by destruct Hp as [H|[H|[H|H]]].
Qed.

Lemma parse_name_is_first_token_witness :
  tokenText (name lineL1) = true /\
  exists tokens,
    splitWhitespace "create_line -name l1 -coord_1 {0,0} -coord_2 {5,2}"
    = name lineL1 :: tokens.
Proof.
  apply (proj2 (parse_name_is_first_token
                  "create_line -name l1 -coord_1 {0,0} -coord_2 {5,2}")).
  vm_compute. reflexivity.
Defined.

Lemma parseTokens_pairs (tokens : list string) :
  (forall out out', CommandParser.parseTokens tokens out = Ok out' ->
                    exists n, length tokens = (2 * n)%nat) /\
  (forall t out out', CommandParser.parseTokens (t :: tokens) out = Ok out' ->
                      exists n, length (t :: tokens) = (2 * n)%nat).
Proof.
  induction tokens as [|a l [IH1 IH2]].
  - split; [by exists 0%nat|]. intros t out out'. simpl.
    by destruct (startsWith t "-coord_"), (startsWith t "-").
  - split; [apply IH2|]. intros t out out'. simpl.
    assert (Hstep : forall o, CommandParser.parseTokens l o = Ok out' ->
                              exists n, S (S (length l)) = (2 * n)%nat).
    { intros o [n Hn]%IH1. exists (S n). lia. }
    destruct (startsWith t "-coord_").
    + destruct (CommandParser.parseCoords a); [apply Hstep|done].
    + destruct (startsWith t "-"); [apply Hstep|done].
Qed.

(** X7. After the command name the parser reads flag and value in pairs: a
    text parses only if the number of its tokens is odd, the name and an even
    number of tokens after it. *)
Theorem parse_tokens_in_pairs (raw : string) (c : Command) :
  CommandParser.parse raw = Ok c ->
  exists n, length (splitWhitespace raw) = S (2 * n).
Proof.
  unfold CommandParser.parse.
  destruct (splitWhitespace raw) as [|first tokens]; [done|].
  destruct (CommandParser.parseTokens tokens _) as [out|] eqn:Hp; [|done].
  intros _. apply parseTokens_pairs in Hp as [n Hn]. exists n. simpl. lia.
Qed.

Lemma parse_tokens_in_pairs_witness :
  exists n,
    length (splitWhitespace "create_line -name l1 -coord_1 {0,0} -coord_2 {5,2}")
    = S (2 * n).
Proof.
  apply (parse_tokens_in_pairs _ lineL1). vm_compute. reflexivity.
Defined.

Lemma startsWith_coord_key (t : string) :
  startsWith t "-coord_" = true -> startsWith (mid1 t) "coord_" = true.
Proof.
  unfold startsWith. destruct t as [|c t]; [done|].
  change (String.prefix "-coord_" (String c t))
    with (if ascii_dec "-" c then String.prefix "coord_" t else false).
  change (mid1 (String c t)) with t.
  by destruct (ascii_dec "-" c).
Qed.

Lemma startsWith_flag_key (t : string) :
  startsWith t "-" = true -> startsWith t "-coord_" = false ->
  startsWith (mid1 t) "coord_" = false.
Proof.
  unfold startsWith. destruct t as [|c t]; [done|].
  change (String.prefix "-coord_" (String c t))
    with (if ascii_dec "-" c then String.prefix "coord_" t else false).
  change (String.prefix "-" (String c t))
    with (if ascii_dec "-" c then String.prefix "" t else false).
  change (mid1 (String c t)) with t.
  by destruct (ascii_dec "-" c).
Qed.

Lemma parseTokens_keys (tokens : list string) :
  (forall out out', keysSorted out ->
                    CommandParser.parseTokens tokens out = Ok out' ->
                    keysSorted out') /\
  (forall t out out', keysSorted out ->
                      CommandParser.parseTokens (t :: tokens) out = Ok out' ->
                      keysSorted out').
Proof.
  induction tokens as [|a l [IH1 IH2]].
  - split; [by intros out out' ? [= <-]|].
    intros t out out' _. simpl.
    by destruct (startsWith t "-coord_"), (startsWith t "-").
  - split; [apply IH2|].
    intros t out out' [Hc Ha]. simpl.
    destruct (startsWith t "-coord_") eqn:Hcoord.
    + destruct (CommandParser.parseCoords a) as [pt|]; [|done].
      apply IH1. split; [|exact Ha]. intros key p. simpl.
      destruct (decide (mid1 t = key)) as [<-|Hne].
      * intros _. by apply startsWith_coord_key.
      * rewrite lookup_insert_ne by done. apply Hc.
    + destruct (startsWith t "-") eqn:Hflag; [|done].
      apply IH1. split; [exact Hc|]. intros key v. simpl.
      destruct (decide (mid1 t = key)) as [<-|Hne].
      * intros _. by apply startsWith_flag_key.
      * rewrite lookup_insert_ne by done. apply Ha.
Qed.

(** X8. In a parsed command every key of [coords] begins with [coord_] and no
    key of [args] does: a flag goes to one map or the other by its spelling
    alone, whatever its value looks like. *)
Theorem parse_sorts_keys (raw : string) (c : Command) :
  CommandParser.parse raw = Ok c -> keysSorted c.
Proof.
  unfold CommandParser.parse.
  destruct (splitWhitespace raw) as [|first tokens]; [done|].
  destruct (CommandParser.parseTokens tokens _) as [out|] eqn:Hp; [|done].
  destruct (isEmpty (name out)); [done|]. intros [= <-].
  eapply (proj1 (parseTokens_keys tokens)); [|exact Hp].
  split; intros key v; simpl; by rewrite lookup_empty.
Qed.

Lemma parse_sorts_keys_witness : keysSorted lineL1.
Proof.
  apply (parse_sorts_keys "create_line -name l1 -coord_1 {0,0} -coord_2 {5,2}").
  vm_compute. reflexivity.
Defined.

Lemma parseTokens_app (l1 : list string) :
  (forall l2 out out1, CommandParser.parseTokens l1 out = Ok out1 ->
      CommandParser.parseTokens (l1 ++ l2) out = CommandParser.parseTokens l2 out1) /\
  (forall t l2 out out1, CommandParser.parseTokens (t :: l1) out = Ok out1 ->
      CommandParser.parseTokens ((t :: l1) ++ l2) out
      = CommandParser.parseTokens l2 out1).
Proof.
  induction l1 as [|a l [IH1 IH2]].
  - split; [by intros l2 out out1 [= <-]|].
    intros t l2 out out1. simpl.
    by destruct (startsWith t "-coord_"), (startsWith t "-").
  - split; [apply IH2|].
    intros t l2 out out1.
    change ((t :: a :: l) ++ l2)%list with (t :: a :: (l ++ l2)%list). simpl.
    destruct (startsWith t "-coord_").
    + destruct (CommandParser.parseCoords a); [apply IH1|done].
    + destruct (startsWith t "-"); [apply IH1|done].
Qed.

(** X9. The loop over the flags works from left to right and a parsed prefix
    can be cut off: parsing more tokens after a parsed run continues from the
    command that run gave.  So a plain flag written once more at the end
    replaces the value it had: the last value wins. *)
Theorem parseTokens_continues (l1 l2 : list string) (out out1 : Command)
    (t value : string) :
  CommandParser.parseTokens l1 out = Ok out1 ->
  CommandParser.parseTokens (l1 ++ l2) out = CommandParser.parseTokens l2 out1 /\
  (startsWith t "-" = true -> startsWith t "-coord_" = false ->
   exists out2,
     CommandParser.parseTokens (l1 ++ [t; value]) out = Ok out2 /\
     args out2 = <[mid1 t := value]> (args out1) /\
     args out2 !! mid1 t = Some value /\
     coords out2 = coords out1).
Proof.
  intros H1. split; [by apply parseTokens_app|].
  intros Hflag Hcoord.
  rewrite (proj1 (parseTokens_app l1) _ _ _ H1). simpl.
  rewrite Hcoord, Hflag.
  eexists; split; [reflexivity|]. simpl.
  split; [done|]. split; [apply lookup_insert_eq|done].
Qed.

Lemma parseTokens_continues_witness :
  exists out2,
    CommandParser.parseTokens (["-name"; "a"] ++ ["-name"; "b"])
      (mkCommand "create_line" ∅ ∅ []) = Ok out2 /\
    args out2 !! "name" = Some "b".
Proof.
  destruct (proj2 (parseTokens_continues ["-name"; "a"] [] 
                     (mkCommand "create_line" ∅ ∅ [])
                     (mkCommand "create_line" {[ "name" := "a" ]} ∅ [])
                     "-name" "b" eq_refl) eq_refl eq_refl)
    as (out2 & Hp & _ & Hv & _).
  exists out2. split; [exact Hp|exact Hv].
Defined.

(** X10. Every coordinate of a parsed command is a point of two finite
    doubles: a literal too large for a double is refused by the parser, so
    neither NaN nor an infinity enters through it. *)
Theorem parse_coordinates_are_finite (raw : string) (c : Command)
    (key : string) (p : QPointF) :
  CommandParser.parse raw = Ok c ->
  coords c !! key = Some p ->
  finitePoint p = true.
Proof.
  intros Hparse Hkey. by apply (parsed_coordinates_finite raw c Hparse key).
Qed.

Lemma parse_coordinates_are_finite_witness : finitePoint (Pt 5 2) = true.
Proof.
  apply (parse_coordinates_are_finite
           "create_line -name l1 -coord_1 {0,0} -coord_2 {5,2}" lineL1 "coord_2").
  - vm_compute. reflexivity.
  - reflexivity.
Defined.

(** A one followed by four hundred zeros is beyond the doubles. *)
Example overflowing_literal_refused :
  CommandParser.parseCoords ("{" ++ oneAndZeros 400 ++ ",0}")
  = Err ("Failed to parse numeric values in '{" ++ oneAndZeros 400 ++ ",0}'.").
Proof. vm_compute. reflexivity. Qed.

(** ** The dispatcher: what one command can do to the state *)

Lemma requireName_inv (cmd : Command) (nm : string) :
  CommandDispatcher.requireName cmd = Ok nm ->
  isEmpty nm = false /\ exists value, args cmd !! "name" = Some value /\ nm = trimmed value.
Proof.
  unfold CommandDispatcher.requireName.
  destruct (args cmd !! "name") as [value|]; [|done].
  destruct (isEmpty (trimmed value)) eqn:He; [done|].
  intros [= <-]. eauto.
Qed.

Lemma validateUniqueName_inv (st : State) (nm : string) (u : unit) :
  CommandDispatcher.validateUniqueName st nm = Ok u -> m_repo st !! nm = None.
Proof.
  unfold CommandDispatcher.validateUniqueName, ShapeRepository.contains.
  case_bool_decide as H; [done|]. intros _.
  destruct (m_repo st !! nm) eqn:E; [|done]. destruct H. eauto.
Qed.

Ltac handler_cases :=
  repeat match goal with
  | |- createsOrFails _ _ _ (CommandDispatcher.orFail _ ?o _) =>
      let E := fresh "E" in
      destruct o eqn:E; simpl; [|by left]
  | |- createsOrFails _ _ _ (if ?b then _ else _) =>
      destruct b; [by left|]
  | |- createsOrFails _ _ _ (match ?o with Some _ => _ | None => _ end) =>
      destruct o as [[[[? ?] ?] ?]|]
  end.

Ltac handler_done :=
  right; split; [done|];
  match goal with
  | E : CommandDispatcher.requireName _ = Ok ?nm,
    U : CommandDispatcher.validateUniqueName _ ?nm = Ok _ |- _ =>
      destruct (requireName_inv _ _ E) as [? _];
      apply validateUniqueName_inv in U;
      eexists nm, _; split; [done|]; split; [|by repeat split]; reflexivity
  end.

Lemma handleCreateLine_cases (h : Host) (cmd : Command) (st : State) :
  createsOrFails Line cmd st (CommandDispatcher.handleCreateLine h cmd st).
Proof.
  unfold CommandDispatcher.handleCreateLine. handler_cases. handler_done.
Qed.

Lemma handleCreateTriangle_cases (cmd : Command) (st : State) :
  createsOrFails Triangle cmd st (CommandDispatcher.handleCreateTriangle cmd st).
Proof.
  unfold CommandDispatcher.handleCreateTriangle. handler_cases. handler_done.
Qed.

Lemma handleCreateRectangle_cases (cmd : Command) (st : State) :
  createsOrFails Rectangle cmd st (CommandDispatcher.handleCreateRectangle cmd st).
Proof.
  unfold CommandDispatcher.handleCreateRectangle. handler_cases; handler_cases;
    handler_done.
Qed.

Lemma handleCreateSquare_cases (cmd : Command) (st : State) :
  createsOrFails Square cmd st (CommandDispatcher.handleCreateSquare cmd st).
Proof.
  unfold CommandDispatcher.handleCreateSquare. handler_cases; handler_cases;
    handler_done.
Qed.

Lemma handleConnect_cases (h : Host) (cmd : Command) (st : State) :
  let r := CommandDispatcher.handleConnect h cmd st in
  (r.1.1 = false /\ r.2 = st) \/ (r.1.1 = true /\ connected st r.2).
Proof.
  unfold CommandDispatcher.handleConnect, ShapeRepository.get.
  destruct (args cmd !! "object_name_1"), (args cmd !! "object_name_2");
    try (by left).
  destruct (m_repo st !! s), (m_repo st !! s0); try (by left).
  right. split; [done|]. split; [done|]. simpl. eauto.
Qed.

(** What [execute] does with a command other than [execute_file]. *)
Lemma execute_simple (h : Host) (fuel : nat) (cmd : Command) (message : string)
    (st : State) (r : Result) :
  name cmd <> "execute_file" ->
  CommandDispatcher.execute h fuel cmd message st = Some r ->
  (exists k, kindMade (name cmd) = Some k /\ createsOrFails k cmd st r) \/
  (name cmd = "connect" /\ r = CommandDispatcher.handleConnect h cmd st) \/
  (kindMade (name cmd) = None /\ name cmd <> "connect" /\
   r = (false, "Unknown command '" ++ name cmd ++ "'.", st)).
Proof.
  intros Hfile%String.eqb_neq. unfold kindMade.
  destruct fuel; simpl;
    (destruct (String.eqb (name cmd) "create_line");
     [intros [= <-]; left; eexists; split; [done|apply handleCreateLine_cases]|]);
    (destruct (String.eqb (name cmd) "create_triangle");
     [intros [= <-]; left; eexists; split; [done|apply handleCreateTriangle_cases]|]);
    (destruct (String.eqb (name cmd) "create_rectangle");
     [intros [= <-]; left; eexists; split; [done|apply handleCreateRectangle_cases]|]);
    (destruct (String.eqb (name cmd) "create_square");
     [intros [= <-]; left; eexists; split; [done|apply handleCreateSquare_cases]|]);
    (destruct (String.eqb (name cmd) "connect") eqn:Hc;
     [apply String.eqb_eq in Hc; intros [= <-]; right; left; done|]);
    rewrite Hfile; apply String.eqb_neq in Hc; intros [= <-]; right; right; done.
Qed.

(** X11. A command other than [execute_file] that fails changes nothing:
    whatever the reason of the failure, the repository and the scene after
    it are those before it. *)
Theorem failed_command_keeps_state (h : Host) (fuel : nat) (cmd : Command)
    (message msg : string) (st st' : State) :
  name cmd <> "execute_file" ->
  CommandDispatcher.execute h fuel cmd message st = Some (false, msg, st') ->
  st' = st.
Proof.
  intros Hn Hex.
  destruct (execute_simple _ _ _ _ _ _ Hn Hex)
    as [(k & _ & [[_ H]|[H _]])|[[_ H]|(_ & _ & H)]]; try done.
  - pose proof (handleConnect_cases h cmd st) as Hc. simpl in Hc.
    rewrite <- H in Hc. by destruct Hc as [[_ Hc]|[Hc _]].
  - by injection H.
Qed.

Lemma failed_command_keeps_state_witness : stateWithLine = stateWithLine.
Proof.
  apply (failed_command_keeps_state noFiles 0 triangleNamedL1 ""
           "An object named 'l1' already exists. Choose a unique name.").
  - discriminate.
  - reflexivity.
Defined.

(** X12. A command other than [execute_file] that succeeds does one of two
    things.  A [create_*] command registers exactly one shape, of the kind of
    the command, under the trimmed [-name] value, which was free: the
    repository grows by one entry, every other entry is untouched, and the
    item of the shape is put in front of the scene.  A [connect] command
    leaves the repository alone and puts one segment in front of the scene. *)
Theorem successful_command_effect (h : Host) (fuel : nat) (cmd : Command)
    (message msg : string) (st st' : State) :
  name cmd <> "execute_file" ->
  CommandDispatcher.execute h fuel cmd message st = Some (true, msg, st') ->
  (exists nm shape,
     CommandDispatcher.requireName cmd = Ok nm /\
     kindMade (name cmd) = Some (kind shape) /\
     registered st st' nm shape /\
     m_repo st' !! nm = Some shape /\
     (forall key, key <> nm -> m_repo st' !! key = m_repo st !! key) /\
     size (m_repo st') = S (size (m_repo st)) /\
     m_scene st' = graphicsItem shape :: m_scene st) \/
  (name cmd = "connect" /\ connected st st').
Proof.
  intros Hn Hex.
  destruct (execute_simple _ _ _ _ _ _ Hn Hex)
    as [(k & Hk & [[H _]|[_ H]])|[[Hc H]|(_ & _ & H)]]; try done.
  - left. destruct H as (nm & shape & Hnm & <- & Hreg).
    exists nm, shape. split; [done|]. split; [done|]. split; [done|].
    destruct Hreg as (Hfree & _ & _ & Hst). simpl in Hst. subst st'. simpl.
    unfold ShapeRepository.add.
    split; [apply lookup_insert_eq|].
    split; [by intros key Hkey; rewrite lookup_insert_ne|].
    split; [by apply map_size_insert_None|done].
  - right. split; [done|].
    pose proof (handleConnect_cases h cmd st) as Hcases. simpl in Hcases.
    rewrite <- H in Hcases. by destruct Hcases as [[Hf _]|[_ Hcon]].
Qed.

Lemma successful_command_effect_witness :
  (exists nm shape,
     CommandDispatcher.requireName lineL1 = Ok nm /\
     kindMade (name lineL1) = Some (kind shape) /\
     registered initialState stateWithLine nm shape /\
     m_repo stateWithLine !! nm = Some shape /\
     (forall key, key <> nm ->
                  m_repo stateWithLine !! key = m_repo initialState !! key) /\
     size (m_repo stateWithLine) = S (size (m_repo initialState)) /\
     m_scene stateWithLine = graphicsItem shape :: m_scene initialState) \/
  (name lineL1 = "connect" /\ connected initialState stateWithLine).
Proof.
  apply (successful_command_effect noFiles 0 lineL1 "" "Line 'l1' created.").
  - discriminate.
  - reflexivity.
Defined.

(** ** The dispatcher: what holds through every command, scripts included *)

Section Preserved.
Context (R : State -> State -> Prop) (Rrefl : forall st, R st st)
  (Rtrans : forall st1 st2 st3, R st1 st2 -> R st2 st3 -> R st1 st3).

Lemma scriptLoop_related (exec : Command -> string -> State -> option Result)
    (lines : list string) :
  (forall c m s r, exec c m s = Some r -> R s r.2) ->
  forall (lineNo successCount failureCount : Z) (msg : string) (st : State) r,
    CommandDispatcher.scriptLoop exec lines lineNo successCount failureCount msg st
    = Some r ->
    R st r.2.
Proof.
  intros Hexec. induction lines as [|line rest IH];
    intros lineNo sc fc msg st r; simpl.
  - intros [= <-]. apply Rrefl.
  - destruct (isEmpty (trimmed line)); [apply IH|].
    destruct (CommandParser.parse (trimmed line)) as [c|parseError]; [|apply IH].
    destruct (exec c "" st) as [[[ok execMsg] st1]|] eqn:Hc; [|done].
    apply Hexec in Hc. simpl in Hc.
    destruct ok; intros H%IH; by eapply Rtrans.
Qed.

(** A relation between states that is reflexive and transitive and that
    every command other than [execute_file] respects is respected by every
    command, to any depth of nested scripts. *)
Lemma execute_related (h : Host) :
  (forall fuel cmd message st r,
      name cmd <> "execute_file" ->
      CommandDispatcher.execute h fuel cmd message st = Some r -> R st r.2) ->
  forall fuel cmd message st r,
    CommandDispatcher.execute h fuel cmd message st = Some r -> R st r.2.
Proof.
  intros Hsimple fuel.
  induction fuel as [|fuel IH]; intros cmd message st r Hex;
    destruct (String.eqb (name cmd) "execute_file") eqn:Hn;
    try (apply String.eqb_neq in Hn; by eapply Hsimple).
  - apply String.eqb_eq in Hn. simpl in Hex. rewrite Hn in Hex. done.
  - apply String.eqb_eq in Hn.
    rewrite execute_execute_file in Hex by done.
    unfold CommandDispatcher.handleExecuteFile in Hex.
    destruct (args cmd !! "file_path") as [path|];
      [|injection Hex as <-; apply Rrefl].
    destruct (readLines h path) as [lines|];
      [|injection Hex as <-; apply Rrefl].
    destruct (CommandDispatcher.scriptLoop _ lines 0 0 0 message st)
      as [[[[sc fc] msg'] st']|] eqn:Hloop; [|done].
    injection Hex as <-.
    by apply (scriptLoop_related _ lines IH _ _ _ _ _ _ Hloop).
Qed.
End Preserved.

Lemma grownFrom_refl (st : State) : grownFrom st st.
Proof. split; reflexivity. Qed.

Lemma grownFrom_trans (st1 st2 st3 : State) :
  grownFrom st1 st2 -> grownFrom st2 st3 -> grownFrom st1 st3.
Proof. intros [? ?] [? ?]. split; by etransitivity. Qed.

Lemma registered_grown (st st' : State) (nm : string) (shape : ShapeBase) :
  registered st st' nm shape -> grownFrom st st'.
Proof.
  intros (Hfree & _ & _ & ->). split; simpl.
  - by apply insert_subseteq.
  - by apply suffix_cons_r.
Qed.

Lemma connected_grown (st st' : State) : connected st st' -> grownFrom st st'.
Proof.
  intros (Hrepo & c1 & c2 & Hscene). split.
  - by rewrite Hrepo.
  - rewrite Hscene. by apply suffix_cons_r.
Qed.

(** The state after a command other than [execute_file]. *)
Lemma simple_step (h : Host) (fuel : nat) (cmd : Command) (message : string)
    (st : State) (r : Result) :
  name cmd <> "execute_file" ->
  CommandDispatcher.execute h fuel cmd message st = Some r ->
  r.2 = st \/ (exists nm shape, registered st r.2 nm shape) \/ connected st r.2.
Proof.
  intros Hn Hex.
  destruct (execute_simple _ _ _ _ _ _ Hn Hex)
    as [(k & _ & [[_ H]|[_ H]])|[[_ H]|(_ & _ & H)]].
  - by left.
  - destruct H as (nm & shape & _ & _ & H). right. left. eauto.
  - pose proof (handleConnect_cases h cmd st) as Hc. simpl in Hc.
    rewrite <- H in Hc. destruct Hc as [[_ Hc]|[_ Hc]]; [by left|by right; right].
  - left. by rewrite H.
Qed.

Lemma execute_grown (h : Host) (fuel : nat) (cmd : Command) (message : string)
    (st : State) (r : Result) :
  CommandDispatcher.execute h fuel cmd message st = Some r -> grownFrom st r.2.
Proof.
  apply (execute_related grownFrom grownFrom_refl grownFrom_trans h).
  intros fuel' cmd' message' st0 r0 Hn Hr.
  destruct (simple_step _ _ _ _ _ _ Hn Hr) as [->|[(nm & shape & H)|H]].
  - apply grownFrom_refl.
  - by eapply registered_grown.
  - by apply connected_grown.
Qed.

(** X13. No command ever removes or replaces a registered shape, and none
    takes an item out of the scene: after any command, a script with nested
    scripts included and whether it reports success or failure, every name
    that was registered still maps to the same shape and the old scene is
    the tail of the new one. *)
Theorem registry_only_grows (h : Host) (fuel : nat) (cmd : Command)
    (message msg : string) (ok : bool) (st st' : State) :
  CommandDispatcher.execute h fuel cmd message st = Some (ok, msg, st') ->
  (forall key shape, m_repo st !! key = Some shape -> m_repo st' !! key = Some shape) /\
  (forall key, ShapeRepository.contains (m_repo st) key = true ->
               ShapeRepository.contains (m_repo st') key = true) /\
  exists added, m_scene st' = (added ++ m_scene st)%list.
Proof.
  intros Hex.
  pose proof (execute_grown _ _ _ _ _ _ Hex) as Hgrown. simpl in Hgrown.
  destruct Hgrown as [Hrepo Hscene].
  split; [|split].
  - intros key shape Hkey. by eapply lookup_weaken.
  - intros key. unfold ShapeRepository.contains.
    rewrite !bool_decide_eq_true. intros [shape Hkey].
    exists shape. by eapply lookup_weaken.
  - exact Hscene.
Qed.

Lemma registry_only_grows_witness :
  (forall key shape, m_repo stateWithLine !! key = Some shape ->
                     m_repo stateWithLine !! key = Some shape) /\
  (forall key, ShapeRepository.contains (m_repo stateWithLine) key = true ->
               ShapeRepository.contains (m_repo stateWithLine) key = true) /\
  exists added, m_scene stateWithLine = (added ++ m_scene stateWithLine)%list.
Proof.
  apply (registry_only_grows noFiles 0 triangleNamedL1 ""
           "An object named 'l1' already exists. Choose a unique name." false).
  reflexivity.
Defined.

Lemma wellFormed_registered (st st' : State) (nm : string) (shape : ShapeBase) :
  registered st st' nm shape -> wellFormed st -> wellFormed st'.
Proof.
  intros (Hfree & Hne & Hname & ->) Hwf key s. simpl.
  unfold ShapeRepository.add.
  destruct (decide (nm = key)) as [<-|Hkey].
  - rewrite lookup_insert_eq. intros [= <-].
    split; [done|]. split; [done|]. by left.
  - rewrite lookup_insert_ne by done. intros (? & ? & ?)%Hwf.
    split; [done|]. split; [done|]. by right.
Qed.

Lemma wellFormed_connected (st st' : State) :
  connected st st' -> wellFormed st -> wellFormed st'.
Proof.
  intros (Hrepo & c1 & c2 & Hscene) Hwf key s. rewrite Hrepo, Hscene.
  intros (? & ? & ?)%Hwf. split; [done|]. split; [done|]. by right.
Qed.

Lemma execute_wellFormed (h : Host) (fuel : nat) (cmd : Command) (message : string)
    (st : State) (r : Result) :
  CommandDispatcher.execute h fuel cmd message st = Some r ->
  wellFormed st -> wellFormed r.2.
Proof.
  apply (execute_related (fun s s' => wellFormed s -> wellFormed s')
           (fun _ H => H) (fun _ _ _ H1 H2 H => H2 (H1 H)) h).
  intros fuel' cmd' message' st0 r0 Hn Hr.
  destruct (simple_step _ _ _ _ _ _ Hn Hr) as [->|[(nm & shape & H)|H]].
  - done.
  - by eapply wellFormed_registered.
  - by apply wellFormed_connected.
Qed.

(** X14. Every state the program can reach is well formed: each shape is
    registered under its own name, no registered name is empty, and the item
    of every registered shape is in the scene.  This holds at start-up and
    every command keeps it, scripts with nested scripts included. *)
Theorem wellFormed_kept (h : Host) (fuel : nat) (cmd : Command)
    (message msg : string) (ok : bool) (st st' : State) :
  wellFormed initialState /\
  (wellFormed st ->
   CommandDispatcher.execute h fuel cmd message st = Some (ok, msg, st') ->
   wellFormed st').
Proof.
  split; [by intros key shape|].
  intros Hwf Hex.
  exact (execute_wellFormed _ _ _ _ _ _ Hex Hwf).
Qed.

Lemma wellFormed_kept_witness : wellFormed stateWithLine.
Proof.
  destruct (wellFormed_kept noFiles 0 lineL1 "" "Line 'l1' created." true
              initialState stateWithLine) as [Hinit Hstep].
  apply Hstep; [exact Hinit|reflexivity].
Defined.

(** ** The dispatcher: when a shape is created *)

Lemma name_checks (cmd : Command) (st : State) (k : string -> Result) :
  (nameUsable cmd st /\
   exists value, args cmd !! "name" = Some value /\
     CommandDispatcher.orFail st (CommandDispatcher.requireName cmd)
       (fun nm => CommandDispatcher.orFail st
                    (CommandDispatcher.validateUniqueName st nm) (fun _ => k nm))
     = k (trimmed value)) \/
  (~ nameUsable cmd st /\
   exists msg,
     CommandDispatcher.orFail st (CommandDispatcher.requireName cmd)
       (fun nm => CommandDispatcher.orFail st
                    (CommandDispatcher.validateUniqueName st nm) (fun _ => k nm))
     = (false, msg, st)).
Proof.
  unfold nameUsable, CommandDispatcher.requireName.
  destruct (args cmd !! "name") as [value|] eqn:Hv; simpl.
  - destruct (isEmpty (trimmed value)) eqn:He; simpl.
    + right. split; [|eauto]. intros (v & [= <-] & ? & _). congruence.
    + destruct (m_repo st !! trimmed value) as [s|] eqn:Hs.
      * right. rewrite validateUniqueName_taken by (rewrite Hs; eauto). simpl.
        split; [|eauto]. intros (v & [= <-] & _ & ?). congruence.
      * left. rewrite validateUniqueName_fresh by done. simpl.
        split; eauto.
  - right. split; [|eauto]. by intros (v & ? & _).
Qed.

(** X15. [create_line] checks nothing of the geometry: it succeeds exactly
    when the name can be used and both [coord_1] and [coord_2] are given,
    equal end points included. *)
Theorem create_line_succeeds_iff (h : Host) (fuel : nat) (cmd : Command)
    (message : string) (st : State) :
  name cmd = "create_line" ->
  exists (ok : bool) (msg : string) (st' : State),
    CommandDispatcher.execute h fuel cmd message st = Some (ok, msg, st') /\
    (ok = true <->
     nameUsable cmd st /\
     is_Some (coords cmd !! "coord_1") /\ is_Some (coords cmd !! "coord_2")).
Proof.
  intros Hn. rewrite execute_create_line by done.
  unfold CommandDispatcher.handleCreateLine.
  destruct (name_checks cmd st (fun name =>
              CommandDispatcher.orFail st (CommandDispatcher.requireCoord cmd "coord_1")
                (fun p1 => CommandDispatcher.orFail st
                   (CommandDispatcher.requireCoord cmd "coord_2")
                   (fun p2 => (true, lineCreatedText h name p1 p2,
                               CommandDispatcher.addShape st name
                                 (LineShape name p1 p2))))))
    as [(Hu & value & Hv & ->)|(Hu & msg & ->)].
  - unfold CommandDispatcher.requireCoord.
    destruct (coords cmd !! "coord_1") as [p1|]; simpl.
    + destruct (coords cmd !! "coord_2") as [p2|]; simpl.
      * eexists _, _, _; split; [done|]. naive_solver.
      * eexists _, _, _; split; [done|]. split; [done|]. by intros (_ & _ & [? ?]).
    + eexists _, _, _; split; [done|]. split; [done|]. by intros (_ & [? ?] & _).
  - eexists _, _, _; split; [done|]. naive_solver.
Qed.

Lemma create_line_succeeds_iff_witness :
  exists (ok : bool) (msg : string) (st' : State),
    CommandDispatcher.execute noFiles 0 lineL1 "" initialState = Some (ok, msg, st') /\
    (ok = true <->
     nameUsable lineL1 initialState /\
     is_Some (coords lineL1 !! "coord_1") /\ is_Some (coords lineL1 !! "coord_2")).
Proof. apply (create_line_succeeds_iff noFiles 0 lineL1 "" initialState). reflexivity. Defined.

(** X16. [create_triangle] succeeds exactly when the name can be used, the
    three coordinates are given and [areCollinear] with the default tolerance
    rejects them. *)
Theorem create_triangle_succeeds_iff (h : Host) (fuel : nat) (cmd : Command)
    (message : string) (st : State) :
  name cmd = "create_triangle" ->
  exists (ok : bool) (msg : string) (st' : State),
    CommandDispatcher.execute h fuel cmd message st = Some (ok, msg, st') /\
    (ok = true <->
     nameUsable cmd st /\
     exists p1 p2 p3,
       coords cmd !! "coord_1" = Some p1 /\ coords cmd !! "coord_2" = Some p2 /\
       coords cmd !! "coord_3" = Some p3 /\
       Utility.areCollinear p1 p2 p3 Utility.eps_default = false).
Proof.
  intros Hn. rewrite execute_create_triangle by done.
  unfold CommandDispatcher.handleCreateTriangle.
  destruct (name_checks cmd st (fun name =>
              CommandDispatcher.orFail st (CommandDispatcher.requireCoord cmd "coord_1")
                (fun p1 => CommandDispatcher.orFail st
                   (CommandDispatcher.requireCoord cmd "coord_2")
                   (fun p2 => CommandDispatcher.orFail st
                      (CommandDispatcher.requireCoord cmd "coord_3")
                      (fun p3 =>
                         if Utility.areCollinear p1 p2 p3 Utility.eps_default
                         then (false,
                               "Triangle vertices are collinear. Provide non-collinear points.",
                               st)
                         else (true, "Triangle '" ++ name ++ "' created.",
                               CommandDispatcher.addShape st name
                                 (TriangleShape name p1 p2 p3)))))))
    as [(Hu & value & Hv & ->)|(Hu & msg & ->)].
  - unfold CommandDispatcher.requireCoord.
    destruct (coords cmd !! "coord_1") as [p1|]; simpl;
      [|eexists _, _, _; split; [done|]; naive_solver].
    destruct (coords cmd !! "coord_2") as [p2|]; simpl;
      [|eexists _, _, _; split; [done|]; naive_solver].
    destruct (coords cmd !! "coord_3") as [p3|]; simpl;
      [|eexists _, _, _; split; [done|]; naive_solver].
    destruct (Utility.areCollinear p1 p2 p3 Utility.eps_default) eqn:Hcol;
      eexists _, _, _; (split; [done|]); naive_solver.
  - eexists _, _, _; split; [done|]. naive_solver.
Qed.

Lemma create_triangle_succeeds_iff_witness :
  exists (ok : bool) (msg : string) (st' : State),
    CommandDispatcher.execute noFiles 0 triangleNamedL1 "" initialState
    = Some (ok, msg, st') /\
    (ok = true <->
     nameUsable triangleNamedL1 initialState /\
     exists p1 p2 p3,
       coords triangleNamedL1 !! "coord_1" = Some p1 /\
       coords triangleNamedL1 !! "coord_2" = Some p2 /\
       coords triangleNamedL1 !! "coord_3" = Some p3 /\
       Utility.areCollinear p1 p2 p3 Utility.eps_default = false).
Proof.
  apply (create_triangle_succeeds_iff noFiles 0 triangleNamedL1 "" initialState).
  reflexivity.
Defined.

(** X17. [create_square] picks its mode by the presence of all four
    coordinates and succeeds exactly when the name can be used and the test
    of that mode passes: [isSquare] on the four points, or, when a
    coordinate of the four is missing, [isValidSquareDiagonal] on [coord_1]
    and [coord_2].  A lone [coord_3] or [coord_4] is ignored. *)
Theorem create_square_succeeds_iff (h : Host) (fuel : nat) (cmd : Command)
    (message : string) (st : State) :
  name cmd = "create_square" ->
  exists (ok : bool) (msg : string) (st' : State),
    CommandDispatcher.execute h fuel cmd message st = Some (ok, msg, st') /\
    (ok = true <->
     nameUsable cmd st /\
     ((exists p1 p2 p3 p4,
         CommandDispatcher.hasFour cmd = Some (p1, p2, p3, p4) /\
         Utility.isSquare p1 p2 p3 p4 Utility.eps_default = true) \/
      (CommandDispatcher.hasFour cmd = None /\
       exists p1 p2,
         coords cmd !! "coord_1" = Some p1 /\ coords cmd !! "coord_2" = Some p2 /\
         Utility.isValidSquareDiagonal p1 p2 Utility.eps_diagonal = true))).
Proof.
  intros Hn. rewrite execute_create_square by done.
  unfold CommandDispatcher.handleCreateSquare.
  match goal with
  | |- context [CommandDispatcher.orFail st (CommandDispatcher.requireName cmd)
                  (fun nm => CommandDispatcher.orFail st _ (fun _ => @?k nm))] =>
      destruct (name_checks cmd st k) as [(Hu & value & Hv & ->)|(Hu & msg & ->)]
  end; [|eexists _, _, _; split; [done|]; naive_solver].
  destruct (CommandDispatcher.hasFour cmd) as [[[[p1 p2] p3] p4]|] eqn:H4.
  - destruct (Utility.isSquare p1 p2 p3 p4 Utility.eps_default) eqn:Hsq; simpl;
      eexists _, _, _; (split; [done|]); naive_solver.
  - unfold CommandDispatcher.requireCoord.
    destruct (coords cmd !! "coord_1") as [p1|]; simpl;
      [|eexists _, _, _; split; [done|]; naive_solver].
    destruct (coords cmd !! "coord_2") as [p2|]; simpl;
      [|eexists _, _, _; split; [done|]; naive_solver].
    destruct (Utility.isValidSquareDiagonal p1 p2 Utility.eps_diagonal) eqn:Hd;
      simpl; eexists _, _, _; (split; [done|]); naive_solver.
Qed.

Lemma create_square_succeeds_iff_witness :
  exists (ok : bool) (msg : string) (st' : State),
    CommandDispatcher.execute noFiles 0 diamondSquare "" initialState
    = Some (ok, msg, st') /\
    (ok = true <->
     nameUsable diamondSquare initialState /\
     ((exists p1 p2 p3 p4,
         CommandDispatcher.hasFour diamondSquare = Some (p1, p2, p3, p4) /\
         Utility.isSquare p1 p2 p3 p4 Utility.eps_default = true) \/
      (CommandDispatcher.hasFour diamondSquare = None /\
       exists p1 p2,
         coords diamondSquare !! "coord_1" = Some p1 /\
         coords diamondSquare !! "coord_2" = Some p2 /\
         Utility.isValidSquareDiagonal p1 p2 Utility.eps_diagonal = true))).
Proof.
  apply (create_square_succeeds_iff noFiles 0 diamondSquare "" initialState).
  reflexivity.
Defined.

Lemma execute_creates (h : Host) (fuel : nat) (cmd : Command) (message : string)
    (st : State) :
  creates (name cmd) ->
  exists k : string -> Result,
    CommandDispatcher.execute h fuel cmd message st
    = Some (CommandDispatcher.orFail st (CommandDispatcher.requireName cmd)
              (fun nm => CommandDispatcher.orFail st
                           (CommandDispatcher.validateUniqueName st nm)
                           (fun _ => k nm))).
Proof.
  intros [Hc | [Hc | [Hc | Hc]]].
  - rewrite execute_create_line by done. by eexists.
  - rewrite execute_create_triangle by done. by eexists.
  - rewrite execute_create_rectangle by done. by eexists.
  - rewrite execute_create_square by done. by eexists.
Qed.

(** X18. The four [create_*] commands look at the name before anything else:
    without a [-name] flag they fail with "Missing -name flag.", and with a
    value that is empty after trimming they fail with "Name cannot be
    empty.", whatever coordinates the command carries and whatever the
    repository holds; the state is unchanged. *)
Theorem name_checked_first (h : Host) (fuel : nat) (cmd : Command)
    (message : string) (st : State) :
  creates (name cmd) ->
  (args cmd !! "name" = None ->
   CommandDispatcher.execute h fuel cmd message st
   = Some (false, "Missing -name flag.", st)) /\
  (forall value,
      args cmd !! "name" = Some value -> isEmpty (trimmed value) = true ->
      CommandDispatcher.execute h fuel cmd message st
      = Some (false, "Name cannot be empty.", st)).
Proof.
  intros Hc. destruct (execute_creates h fuel cmd message st Hc) as [k ->].
  unfold CommandDispatcher.requireName. split.
  - by intros ->.
  - intros value -> ->. done.
Qed.

Lemma name_checked_first_witness :
  CommandDispatcher.execute noFiles 0 (mkCommand "create_square" ∅ ∅ []) ""
    stateWithLine
  = Some (false, "Missing -name flag.", stateWithLine).
Proof.
  apply (proj1 (name_checked_first noFiles 0 (mkCommand "create_square" ∅ ∅ []) ""
                  stateWithLine (or_intror (or_intror (or_intror eq_refl))))).
  reflexivity.
Defined.

(** ** The loop over the lines of a script *)

(** One turn of the loop of [handleExecuteFile], by the case of its line. *)
Lemma scriptLoop_cons (exec : Command -> string -> State -> option Result)
    (line : string) (rest : list string) (n sc fc : Z) (msg : string) (st : State) :
  (isEmpty (trimmed line) = true /\
   CommandDispatcher.scriptLoop exec (line :: rest) n sc fc msg st
   = CommandDispatcher.scriptLoop exec rest (n + 1) sc fc msg st) \/
  (isEmpty (trimmed line) = false /\
   ((exists e,
       CommandParser.parse (trimmed line) = Err e /\
       CommandDispatcher.scriptLoop exec (line :: rest) n sc fc msg st
       = CommandDispatcher.scriptLoop exec rest (n + 1) sc (fc + 1)
           (msg ++ nl ++ "Line " ++ number (n + 1) ++ " parse error: " ++ e) st) \/
    (exists c,
       CommandParser.parse (trimmed line) = Ok c /\
       ((exec c "" st = None /\
         CommandDispatcher.scriptLoop exec (line :: rest) n sc fc msg st = None) \/
        (exists m st1,
           exec c "" st = Some (false, m, st1) /\
           CommandDispatcher.scriptLoop exec (line :: rest) n sc fc msg st
           = CommandDispatcher.scriptLoop exec rest (n + 1) sc (fc + 1)
               (msg ++ nl ++ "Line " ++ number (n + 1) ++ " failed: " ++ m) st1) \/
        (exists m st1,
           exec c "" st = Some (true, m, st1) /\
           CommandDispatcher.scriptLoop exec (line :: rest) n sc fc msg st
           = CommandDispatcher.scriptLoop exec rest (n + 1) (sc + 1) fc msg st1))))).
Proof.
  simpl. destruct (isEmpty (trimmed line)); [by left|right; split; [done|]].
  destruct (CommandParser.parse (trimmed line)) as [c|e]; [right|left; by eexists].
  exists c; split; [done|].
  destruct (exec c "" st) as [[[[] m] st1]|]; [right; right|right; left|left];
    by eauto.
Qed.

(** X19. The loop over a script can be cut anywhere: running [l1 ++ l2] is
    running [l1] and then [l2] from the counters, the message and the state
    that [l1] left, with the line numbering carried on; a line of [l1] that
    does not return stops the whole. *)
Theorem scriptLoop_app (exec : Command -> string -> State -> option Result)
    (l1 l2 : list string) (lineNo successCount failureCount : Z) (msg : string)
    (st : State) :
  CommandDispatcher.scriptLoop exec (l1 ++ l2)%list lineNo successCount failureCount
    msg st
  = match CommandDispatcher.scriptLoop exec l1 lineNo successCount failureCount
            msg st with
    | None => None
    | Some (sc, fc, msg1, st1) =>
        CommandDispatcher.scriptLoop exec l2 (lineNo + Z.of_nat (length l1))
          sc fc msg1 st1
    end.
Proof.
  revert lineNo successCount failureCount msg st.
  induction l1 as [|line rest IH]; intros n sc fc msg st.
  - simpl. by rewrite Z.add_0_r.
  - change ((line :: rest) ++ l2)%list with (line :: (rest ++ l2))%list.
    replace (n + Z.of_nat (length (line :: rest)))%Z
      with (n + 1 + Z.of_nat (length rest))%Z by (simpl length; lia).
    destruct (scriptLoop_cons exec line (rest ++ l2)%list n sc fc msg st)
      as [[He ->]|[He [(e & Hp & ->)|(c & Hp & [[Hx ->]|[(m & st1 & Hx & ->)|
                                                   (m & st1 & Hx & ->)]])]]];
      simpl CommandDispatcher.scriptLoop; rewrite He, ?Hp, ?Hx; try done;
      apply IH.
Qed.

(** X20. The two counters of the loop go up by one per line that is not
    blank and never otherwise: when the loop returns, the successes and the
    failures it added number the lines that are not blank after trimming. *)
Theorem scriptLoop_counts (exec : Command -> string -> State -> option Result)
    (lines : list string) (lineNo successCount failureCount : Z) (msg : string)
    (st : State) (sc fc : Z) (msg' : string) (st' : State) :
  CommandDispatcher.scriptLoop exec lines lineNo successCount failureCount msg st
  = Some (sc, fc, msg', st') ->
  (successCount <= sc)%Z /\ (failureCount <= fc)%Z /\
  ((sc - successCount) + (fc - failureCount))%Z
  = Z.of_nat (length (nonBlank lines)).
Proof.
  revert lineNo successCount failureCount msg st.
  induction lines as [|line rest IH]; intros n sc0 fc0 msg st Hrun.
  - simpl in Hrun. injection Hrun as <- <- _ _. simpl. lia.
  - unfold nonBlank in *. rewrite filter_cons.
    destruct (scriptLoop_cons exec line rest n sc0 fc0 msg st)
      as [[He Hs]|[He [(e & Hp & Hs)|(c & Hp & [[Hx Hs]|[(m & st1 & Hx & Hs)|
                                                   (m & st1 & Hx & Hs)]])]]];
      rewrite Hs in Hrun; try done; apply IH in Hrun;
      rewrite He; case_decide; try done; simpl length; lia.
Qed.

Lemma scriptLoop_counts_witness :
  (0 <= 3)%Z /\ (0 <= 2)%Z /\
  ((3 - 0) + (2 - 0))%Z = Z.of_nat (length (nonBlank shapesScript)).
Proof.
  eapply (scriptLoop_counts (CommandDispatcher.execute withScripts 0) shapesScript
            0 0 0 "" initialState 3 2).
  vm_compute. reflexivity.
Defined.

(** X21. The number in a diagnostic is the position of the line in the file,
    blank lines counted: after the lines [l1], a line that is not blank and
    fails, in the parser or in the dispatcher, adds one failure and a
    diagnostic with the number [lineNo + length l1 + 1], and the loop goes on
    with the lines that follow. *)
Theorem diagnostic_line_number (exec : Command -> string -> State -> option Result)
    (l1 : list string) (line : string) (l2 : list string)
    (lineNo successCount failureCount : Z) (msg : string) (st : State)
    (sc fc : Z) (msg1 : string) (st1 : State) :
  CommandDispatcher.scriptLoop exec l1 lineNo successCount failureCount msg st
  = Some (sc, fc, msg1, st1) ->
  isEmpty (trimmed line) = false ->
  let here := (lineNo + Z.of_nat (length l1) + 1)%Z in
  (forall e,
      CommandParser.parse (trimmed line) = Err e ->
      CommandDispatcher.scriptLoop exec (l1 ++ line :: l2)%list lineNo successCount
        failureCount msg st
      = CommandDispatcher.scriptLoop exec l2 here sc (fc + 1)
          (msg1 ++ nl ++ "Line " ++ number here ++ " parse error: " ++ e) st1) /\
  (forall c m st2,
      CommandParser.parse (trimmed line) = Ok c ->
      exec c "" st1 = Some (false, m, st2) ->
      CommandDispatcher.scriptLoop exec (l1 ++ line :: l2)%list lineNo successCount
        failureCount msg st
      = CommandDispatcher.scriptLoop exec l2 here sc (fc + 1)
          (msg1 ++ nl ++ "Line " ++ number here ++ " failed: " ++ m) st2).
Proof.
  intros Hrun He here. subst here.
  revert lineNo successCount failureCount msg st Hrun.
  induction l1 as [|l rest IH]; intros n sc0 fc0 msg st Hrun.
  - simpl in Hrun. injection Hrun as -> -> -> ->.
    simpl length. rewrite Z.add_0_r.
    simpl CommandDispatcher.scriptLoop. rewrite He.
    split; [by intros e ->|by intros c m st2 -> ->].
  - change ((l :: rest) ++ line :: l2)%list with (l :: (rest ++ line :: l2))%list.
    replace (n + Z.of_nat (length (l :: rest)) + 1)%Z
      with (n + 1 + Z.of_nat (length rest) + 1)%Z by (simpl length; lia).
    simpl CommandDispatcher.scriptLoop in *.
    destruct (isEmpty (trimmed l)); [by apply IH|].
    destruct (CommandParser.parse (trimmed l)) as [c0|e0]; [|by apply IH].
    destruct (exec c0 "" st) as [[[[] m0] st0]|]; [by apply IH|by apply IH|done].
Qed.

Lemma diagnostic_line_number_witness :
  CommandDispatcher.scriptLoop (CommandDispatcher.execute noFiles 0)
    ([""; "  "] ++ ["create_line -name"; "connect"])%list 0 0 0 "" initialState
  = CommandDispatcher.scriptLoop (CommandDispatcher.execute noFiles 0)
      ["connect"] (0 + Z.of_nat (length [""; "  "]) + 1) 0 (0 + 1)
      ("" ++ nl ++ "Line " ++ number (0 + Z.of_nat (length [""; "  "]) + 1)
          ++ " parse error: " ++ "Expected value after flag '-name'.")
      initialState.
Proof.
  apply (diagnostic_line_number (CommandDispatcher.execute noFiles 0)
           [""; "  "] "create_line -name" ["connect"] 0 0 0 "" initialState
           0 0 "" initialState); reflexivity.
Defined.

(** The state the loop of [handleExecuteFile] ends in is the one of the lines
    typed one by one. *)
Lemma scriptLoop_typeLines (h : Host) (fuel : nat) (lines : list string) :
  forall (n sc fc : Z) (msg : string) (st : State),
    match CommandDispatcher.scriptLoop (CommandDispatcher.execute h fuel) lines
            n sc fc msg st with
    | None => typeLines h fuel lines st = None
    | Some (_, _, _, st') => typeLines h fuel lines st = Some st'
    end.
Proof.
  induction lines as [|line rest IH]; intros n sc fc msg st; [done|].
  simpl typeLines. unfold onCommandEntered.
  destruct (scriptLoop_cons (CommandDispatcher.execute h fuel) line rest n sc fc msg st)
    as [[He ->]|[He [(e & Hp & ->)|(c & Hp & [[Hx ->]|[(m & st1 & Hx & ->)|
                                                 (m & st1 & Hx & ->)]])]]];
    rewrite He, ?Hp, ?Hx; try done; apply IH.
Qed.

(** X22. A script changes the state as its lines typed one after the other at
    the console would: [execute_file] on a readable file ends in the state
    that [onCommandEntered], called on each line in turn, ends in, and it
    fails to return exactly when one of those calls does. *)
Theorem script_as_typed (h : Host) (fuel : nat) (cmd : Command) (message : string)
    (st : State) (path : string) (lines : list string) :
  name cmd = "execute_file" ->
  args cmd !! "file_path" = Some path ->
  readLines h path = Some lines ->
  match typeLines h fuel lines st with
  | None => CommandDispatcher.execute h (S fuel) cmd message st = None
  | Some st' =>
      exists (ok : bool) (msg : string),
        CommandDispatcher.execute h (S fuel) cmd message st = Some (ok, msg, st')
  end.
Proof.
  intros Hn Hpath Hread. rewrite execute_execute_file by done.
  unfold CommandDispatcher.handleExecuteFile. rewrite Hpath, Hread.
  pose proof (scriptLoop_typeLines h fuel lines 0 0 0 message st) as Hloop.
  destruct (CommandDispatcher.scriptLoop _ lines 0 0 0 message st)
    as [[[[sc fc] msg'] st']|]; rewrite Hloop; [by eexists _, _|done].
Qed.

Lemma script_as_typed_witness :
  match typeLines withScripts 0 shapesScript initialState with
  | None =>
      CommandDispatcher.execute withScripts 1 (executeFile "shapes.txt") ""
        initialState = None
  | Some st' =>
      exists (ok : bool) (msg : string),
        CommandDispatcher.execute withScripts 1 (executeFile "shapes.txt") ""
          initialState = Some (ok, msg, st')
  end.
Proof.
  apply (script_as_typed withScripts 0 (executeFile "shapes.txt") "" initialState
           "shapes.txt" shapesScript); reflexivity.
Defined.

(** A typed line moves the state by [execute] or not at all. *)
Lemma onCommandEntered_state (h : Host) (fuel : nat) (text : string) (st : State)
    (r : Result) :
  onCommandEntered h fuel text st = Some r ->
  r.2 = st \/ exists cmd message, CommandDispatcher.execute h fuel cmd message st = Some r.
Proof.
  unfold onCommandEntered. destruct (isEmpty (trimmed text)); [intros [= <-]; by left|].
  destruct (CommandParser.parse (trimmed text)) as [c|e]; [|intros [= <-]; by left].
  intros Hx. right. by eexists _, _.
Qed.

(** X23. Whatever is typed at the console from start-up on, every shape is
    registered under its own name, which is not empty, and has its item in
    the scene, and what was once registered or drawn stays. *)
Theorem session_wellFormed (h : Host) (fuel : nat) (lines : list string)
    (st st' : State) :
  wellFormed st ->
  typeLines h fuel lines st = Some st' ->
  wellFormed st' /\ grownFrom st st'.
Proof.
  revert st. induction lines as [|line rest IH]; intros st Hwf Hrun.
  - injection Hrun as <-. split; [done|apply grownFrom_refl].
  - simpl in Hrun.
    destruct (onCommandEntered h fuel line st) as [[[ok msg] st1]|] eqn:Hline;
      [|done].
    assert (Hstep : wellFormed st1 /\ grownFrom st st1).
    { destruct (onCommandEntered_state _ _ _ _ _ Hline) as [Heq|(c & m & Hx)].
      - simpl in Heq. subst st1. split; [done|apply grownFrom_refl].
      - split; [exact (execute_wellFormed _ _ _ _ _ _ Hx Hwf)|].
        exact (execute_grown _ _ _ _ _ _ Hx). }
    destruct Hstep as [Hwf1 Hg1].
    destruct (IH st1 Hwf1 Hrun) as [Hwf' Hg']. split; [done|].
    by eapply grownFrom_trans.
Qed.

Lemma session_wellFormed_witness :
  wellFormed stateWithLine /\ grownFrom initialState stateWithLine.
Proof.
  apply (session_wellFormed noFiles 0
           [""; "create_line -name l1 -coord_1 {0,0} -coord_2 {5,2}"; "connect"]
           initialState stateWithLine).
  - by intros key shape.
  - vm_compute. reflexivity.
Defined.

(** ** The dispatcher: rectangles and connections *)

(** X24. [create_rectangle] picks its mode as [create_square] does and
    succeeds exactly when the name can be used and the test of that mode
    passes: [isRectangle] on the four points, or, when a coordinate of the
    four is missing, [coord_1] and [coord_2] that differ, by
    [qFuzzyCompare], in x and in y. *)
Theorem create_rectangle_succeeds_iff (h : Host) (fuel : nat) (cmd : Command)
    (message : string) (st : State) :
  name cmd = "create_rectangle" ->
  exists (ok : bool) (msg : string) (st' : State),
    CommandDispatcher.execute h fuel cmd message st = Some (ok, msg, st') /\
    (ok = true <->
     nameUsable cmd st /\
     ((exists p1 p2 p3 p4,
         CommandDispatcher.hasFour cmd = Some (p1, p2, p3, p4) /\
         Utility.isRectangle p1 p2 p3 p4 Utility.eps_default = true) \/
      (CommandDispatcher.hasFour cmd = None /\
       exists p1 p2,
         coords cmd !! "coord_1" = Some p1 /\ coords cmd !! "coord_2" = Some p2 /\
         qFuzzyCompare (px p1) (px p2) = false /\
         qFuzzyCompare (py p1) (py p2) = false))).
Proof.
  intros Hn. rewrite execute_create_rectangle by done.
  unfold CommandDispatcher.handleCreateRectangle.
  match goal with
  | |- context [CommandDispatcher.orFail st (CommandDispatcher.requireName cmd)
                  (fun nm => CommandDispatcher.orFail st _ (fun _ => @?k nm))] =>
      destruct (name_checks cmd st k) as [(Hu & value & Hv & ->)|(Hu & msg & ->)]
  end; [|eexists _, _, _; split; [done|]; naive_solver].
  destruct (CommandDispatcher.hasFour cmd) as [[[[p1 p2] p3] p4]|] eqn:H4.
  - destruct (Utility.isRectangle p1 p2 p3 p4 Utility.eps_default) eqn:Hsq; simpl;
      eexists _, _, _; (split; [done|]); naive_solver.
  - unfold CommandDispatcher.requireCoord.
    destruct (coords cmd !! "coord_1") as [p1|]; cbn [CommandDispatcher.orFail];
      [|eexists _, _, _; split; [done|]; naive_solver].
    destruct (coords cmd !! "coord_2") as [p2|]; cbn [CommandDispatcher.orFail];
      [|eexists _, _, _; split; [done|]; naive_solver].
    destruct (qFuzzyCompare (px p1) (px p2)) eqn:Hx;
      [|destruct (qFuzzyCompare (py p1) (py p2)) eqn:Hy];
      cbn [orb]; eexists _, _, _; (split; [done|]).
    + split; [done|].
      intros (_ & [(? & ? & ? & ? & ? & _)|(_ & q1 & q2 & Hq1 & Hq2 & Hx' & _)]);
        [done|].
      injection Hq1 as <-. injection Hq2 as <-. by rewrite Hx in Hx'.
    + split; [done|].
      intros (_ & [(? & ? & ? & ? & ? & _)|(_ & q1 & q2 & Hq1 & Hq2 & _ & Hy')]);
        [done|].
      injection Hq1 as <-. injection Hq2 as <-. by rewrite Hy in Hy'.
    + split; [intros _|done]. split; [done|]. right. split; [done|].
      by exists p1, p2.
Qed.

Lemma create_rectangle_succeeds_iff_witness :
  exists (ok : bool) (msg : string) (st' : State),
    CommandDispatcher.execute noFiles 0 rectangleByDiagonal "" initialState
    = Some (ok, msg, st') /\
    (ok = true <->
     nameUsable rectangleByDiagonal initialState /\
     ((exists p1 p2 p3 p4,
         CommandDispatcher.hasFour rectangleByDiagonal = Some (p1, p2, p3, p4) /\
         Utility.isRectangle p1 p2 p3 p4 Utility.eps_default = true) \/
      (CommandDispatcher.hasFour rectangleByDiagonal = None /\
       exists p1 p2,
         coords rectangleByDiagonal !! "coord_1" = Some p1 /\
         coords rectangleByDiagonal !! "coord_2" = Some p2 /\
         qFuzzyCompare (px p1) (px p2) = false /\
         qFuzzyCompare (py p1) (py p2) = false))).
Proof.
  apply (create_rectangle_succeeds_iff noFiles 0 rectangleByDiagonal "" initialState).
  reflexivity.
Defined.

(** X25. [connect] succeeds exactly when both flags are given and both names
    are registered; it then puts the segment between the two centers in
    front of the scene.  The two names may be the same one. *)
Theorem connect_succeeds_iff (h : Host) (fuel : nat) (cmd : Command)
    (message : string) (st : State) :
  name cmd = "connect" ->
  exists (ok : bool) (msg : string) (st' : State),
    CommandDispatcher.execute h fuel cmd message st = Some (ok, msg, st') /\
    (ok = true <->
     exists n1 n2 s1 s2,
       args cmd !! "object_name_1" = Some n1 /\
       args cmd !! "object_name_2" = Some n2 /\
       ShapeRepository.get (m_repo st) n1 = Some s1 /\
       ShapeRepository.get (m_repo st) n2 = Some s2) /\
    (forall n1 n2 s1 s2,
       args cmd !! "object_name_1" = Some n1 ->
       args cmd !! "object_name_2" = Some n2 ->
       ShapeRepository.get (m_repo st) n1 = Some s1 ->
       ShapeRepository.get (m_repo st) n2 = Some s2 ->
       m_scene st' = QGraphicsLineItem (center h s1) (center h s2) :: m_scene st).
Proof.
  intros Hn. rewrite execute_connect by done.
  unfold CommandDispatcher.handleConnect.
  destruct (args cmd !! "object_name_1") as [n1|];
    [|eexists _, _, _; split; [done|]; naive_solver].
  destruct (args cmd !! "object_name_2") as [n2|];
    [|eexists _, _, _; split; [done|]; naive_solver].
  destruct (ShapeRepository.get (m_repo st) n1) as [s1|] eqn:H1;
    [|eexists _, _, _; split; [done|]; split; [|intros ? ? ? ? [= <-] [= <-]];
      naive_solver].
  destruct (ShapeRepository.get (m_repo st) n2) as [s2|] eqn:H2;
    [|eexists _, _, _; split; [done|]; split; [|intros ? ? ? ? [= <-] [= <-]];
      naive_solver].
  eexists _, _, _; split; [done|]. split; [naive_solver|].
  intros ? ? ? ? [= <-] [= <-]. rewrite H1, H2. by intros [= <-] [= <-].
Qed.

Lemma connect_succeeds_iff_witness :
  exists (ok : bool) (msg : string) (st' : State),
    CommandDispatcher.execute noFiles 0 connectToMissing "" stateWithLine
    = Some (ok, msg, st') /\
    (ok = true <->
     exists n1 n2 s1 s2,
       args connectToMissing !! "object_name_1" = Some n1 /\
       args connectToMissing !! "object_name_2" = Some n2 /\
       ShapeRepository.get (m_repo stateWithLine) n1 = Some s1 /\
       ShapeRepository.get (m_repo stateWithLine) n2 = Some s2) /\
    (forall n1 n2 s1 s2,
       args connectToMissing !! "object_name_1" = Some n1 ->
       args connectToMissing !! "object_name_2" = Some n2 ->
       ShapeRepository.get (m_repo stateWithLine) n1 = Some s1 ->
       ShapeRepository.get (m_repo stateWithLine) n2 = Some s2 ->
       m_scene st' = QGraphicsLineItem (center noFiles s1) (center noFiles s2)
                       :: m_scene stateWithLine).
Proof.
  apply (connect_succeeds_iff noFiles 0 connectToMissing "" stateWithLine).
  reflexivity.
Defined.

(** ** ShapeRepository.cpp *)

(** X26. What [add] stores, [get] returns and [contains] reports, and the
    other names are left as they were.  [add] itself refuses nothing: under
    a name in use it replaces the shape and the repository keeps its size;
    under a free name the repository grows by one. *)
Theorem repository_add_get (m_items : gmap string ShapeBase) (nm other : string)
    (shape : ShapeBase) :
  ShapeRepository.get (ShapeRepository.add m_items nm shape) nm = Some shape /\
  ShapeRepository.contains (ShapeRepository.add m_items nm shape) nm = true /\
  (other <> nm ->
   ShapeRepository.get (ShapeRepository.add m_items nm shape) other
   = ShapeRepository.get m_items other /\
   ShapeRepository.contains (ShapeRepository.add m_items nm shape) other
   = ShapeRepository.contains m_items other) /\
  size (ShapeRepository.add m_items nm shape)
  = (if ShapeRepository.contains m_items nm then size m_items
     else S (size m_items)) /\
  (ShapeRepository.contains m_items nm = true
   <-> ShapeRepository.get m_items nm <> None).
Proof.
  unfold ShapeRepository.get, ShapeRepository.add, ShapeRepository.contains.
  split; [apply lookup_insert_eq|].
  split; [rewrite lookup_insert_eq; by apply bool_decide_eq_true|].
  split; [intros Hne; by rewrite lookup_insert_ne|].
  split.
  - case_bool_decide as Hin.
    + by apply map_size_insert_Some.
    + apply map_size_insert_None. by apply eq_None_not_Some.
  - rewrite bool_decide_eq_true. by rewrite not_eq_None_Some.
Qed.

(** ** The parser: the text of a coordinate *)

Lemma span_app {A : Type} (f : A -> bool) (l yes rest : list A) :
  span f l = (yes, rest) -> l = (yes ++ rest)%list.
Proof.
  revert yes rest. induction l as [|a l IH]; intros yes rest; simpl.
  - by intros [= <- <-].
  - destruct (f a); [|by intros [= <- <-]].
    destruct (span f l) as [yes' rest']. intros [= <- <-].
    simpl. f_equal. by apply IH.
Qed.

Lemma matchNumber_app (l c r : list ascii) :
  CommandParser.matchNumber l = Some (c, r) -> l = (c ++ r)%list /\ c <> [].
Proof.
  unfold CommandParser.matchNumber.
  assert (Hbody : forall sign l1,
             match span isDigit l1 with
             | (ds, l2) =>
                 match ds with
                 | [] => None
                 | _ :: _ =>
                     match l2 with
                     | "."%char :: l3 =>
                         let '(fs, l4) := span isDigit l3 in
                         match fs with
                         | [] => Some ((sign ++ ds)%list, l2)
                         | _ :: _ => Some ((sign ++ ds ++ "."%char :: fs)%list, l4)
                         end
                     | _ => Some ((sign ++ ds)%list, l2)
                     end
                 end
             end = Some (c, r) ->
             (sign ++ l1)%list = (c ++ r)%list /\ c <> []).
  { intros sign l1.
    destruct (span isDigit l1) as [ds l2] eqn:Hds. apply span_app in Hds as ->.
    destruct ds as [|d ds]; [done|].
    assert (Hplain : Some ((sign ++ d :: ds)%list, l2) = Some (c, r) ->
                     (sign ++ (d :: ds) ++ l2)%list = (c ++ r)%list /\ c <> []).
    { intros [= <- <-]. split; [by rewrite <- app_assoc|by destruct sign]. }
    destruct l2 as [|p l3]; [done|].
    destruct (ascii_dec p ".") as [->|Hp].
    - destruct (span isDigit l3) as [fs l4] eqn:Hfs. apply span_app in Hfs as ->.
      destruct fs as [|f0 fs]; [done|].
      intros [= <- <-]. split; [|by destruct sign].
      rewrite <- !app_assoc. simpl. by rewrite <- !app_assoc.
    - destruct p as [[] [] [] [] [] [] [] []]; try done. }
  destruct l as [|a l']; [apply (Hbody [] [])|].
  destruct (ascii_dec a "-") as [->|Ha]; [apply (Hbody ["-"%char] l')|].
  destruct a as [[] [] [] [] [] [] [] []]; try done; apply (Hbody []).
Qed.

Lemma dropWhile_token (l : list ascii) :
  forallb (fun c => negb (isRegexSpace c)) l = true ->
  dropWhile isRegexSpace l = l.
Proof.
  destruct l as [|a l]; simpl; [done|].
  intros [Ha _]%andb_prop. by destruct (isRegexSpace a).
Qed.

Lemma text_app (a b : list ascii) : text (a ++ b)%list = text a ++ text b.
Proof. induction a as [|c a IH]; simpl; [done|]. by rewrite IH. Qed.

Lemma text_chars (s : string) : text (chars s) = s.
Proof. apply string_of_list_ascii_of_string. Qed.

(** X27. The tokens of a command hold no white space, so a coordinate that
    the parser accepts is written exactly [{x,y}]: an opening brace, the
    first number, a comma, the second number, a closing brace, nothing
    between them, and the point holds the two numbers as [toDouble] reads
    them. *)
Theorem coordinate_token_syntax (token : string) (p : QPointF) :
  tokenText token = true ->
  CommandParser.parseCoords token = Ok p ->
  exists c1 c2 : string,
    token = "{" ++ c1 ++ "," ++ c2 ++ "}" /\
    isEmpty c1 = false /\ isEmpty c2 = false /\
    toDouble c1 = Some (px p) /\ toDouble c2 = Some (py p).
Proof.
  unfold tokenText, CommandParser.parseCoords. intros [_ Htok]%andb_prop.
  destruct (CommandParser.matchCoords token) as [[c1 c2]|] eqn:Hm; [|done].
  destruct (toDouble c1) as [x|] eqn:Hx; [|done].
  destruct (toDouble c2) as [y|] eqn:Hy; [|done].
  intros [= <-]. exists c1, c2. simpl px. simpl py.
  unfold CommandParser.matchCoords in Hm.
  rewrite <- (text_chars token).
  destruct (chars token) as [|b l0]; [done|].
  destruct (ascii_dec b "{") as [->|Hb];
    [|by destruct b as [[] [] [] [] [] [] [] []]].
  simpl in Htok. rewrite (dropWhile_token l0 Htok) in Hm.
  destruct (CommandParser.matchNumber l0) as [[n1 l1]|] eqn:H1; [|done].
  apply matchNumber_app in H1 as [-> Hn1].
  rewrite forallb_app in Htok. apply andb_prop in Htok as [_ Htok].
  rewrite (dropWhile_token l1 Htok) in Hm.
  destruct l1 as [|k l2]; [done|].
  destruct (ascii_dec k ",") as [->|Hk];
    [|by destruct k as [[] [] [] [] [] [] [] []]].
  simpl in Htok. rewrite (dropWhile_token l2 Htok) in Hm.
  destruct (CommandParser.matchNumber l2) as [[n2 l3]|] eqn:H2; [|done].
  apply matchNumber_app in H2 as [-> Hn2].
  rewrite forallb_app in Htok. apply andb_prop in Htok as [_ Htok].
  rewrite (dropWhile_token l3 Htok) in Hm.
  destruct l3 as [|e l4]; [done|].
  destruct (ascii_dec e "}") as [->|He];
    [|by destruct e as [[] [] [] [] [] [] [] []]].
  destruct l4 as [|f l5].
  - injection Hm as <- <-.
    split; [|by rewrite !isEmpty_text; destruct n1, n2].
    change ("{"%char :: n1 ++ ","%char :: n2 ++ ["}"%char])%list
      with (["{"%char] ++ n1 ++ [","%char] ++ n2 ++ ["}"%char])%list.
    by rewrite !text_app.
  - destruct l5; [|done].
    simpl in Htok. apply andb_prop in Htok as [Hf _].
    destruct (code f =? 10)%nat eqn:Hc; [|done].
    apply Nat.eqb_eq in Hc. unfold isRegexSpace in Hf. rewrite Hc in Hf. done.
Qed.

Lemma coordinate_token_syntax_witness :
  exists c1 c2 : string,
    "{5,2}" = "{" ++ c1 ++ "," ++ c2 ++ "}" /\
    isEmpty c1 = false /\ isEmpty c2 = false /\
    toDouble c1 = Some (px (Pt 5 2)) /\ toDouble c2 = Some (py (Pt 5 2)).
Proof.
  apply (coordinate_token_syntax "{5,2}" (Pt 5 2)); reflexivity.
Defined.

(** ** RectangleShape.cpp: the box of a diagonal *)

Lemma SFcompare_antisym (x y : spec_float) :
  SFcompare y x = option_map CompOpp (SFcompare x y).
Proof.
  assert (Hp : forall mx my, Pos.compare_cont Eq my mx
                             = CompOpp (Pos.compare_cont Eq mx my)).
  { intros mx my. symmetry. apply (Pos.compare_cont_antisym mx my Eq). }
  destruct x as [[]|[]| |[] mx ex], y as [[]|[]| |[] my ey]; simpl; try reflexivity;
    rewrite (Z.compare_antisym ex ey), (Hp mx my);
    destruct (ex ?= ey)%Z; simpl; by rewrite ?CompOpp_involutive.
Qed.

Lemma SFcompare_Eq_inv (x y : spec_float) :
  SFcompare x y = Some Eq ->
  (exists s t, x = S754_zero s /\ y = S754_zero t) \/ x = y.
Proof.
  destruct x as [sx|[]| |[] mx ex], y as [sy|[]| |[] my ey]; simpl; try done;
    try (intros _; left; by eexists _, _); try (intros _; by right);
    destruct (ex ?= ey)%Z eqn:He; try done;
    apply Z.compare_eq in He as ->; intros [= Hm]; right;
    [apply (f_equal CompOpp) in Hm; rewrite CompOpp_involutive in Hm; simpl in Hm|];
    by apply Pos.compare_eq in Hm as ->.
Qed.

(** Two finite doubles that compare equal are within the tolerance of
    [qFuzzyCompare]. *)
Lemma qFuzzyCompare_equal (a b : float) :
  is_finite a = true -> is_finite b = true ->
  SFcompare (Prim2SF a) (Prim2SF b) = Some Eq ->
  qFuzzyCompare a b = true.
Proof.
  intros Ha Hb Hc.
  destruct (SFcompare_Eq_inv _ _ Hc) as [(s & t & Hs & Ht)|Heq].
  - assert (Hza : a = 0%float \/ a = (-0)%float).
    { destruct s; [right|left]; by apply Prim2SF_inj. }
    assert (Hzb : b = 0%float \/ b = (-0)%float).
    { destruct t; [right|left]; by apply Prim2SF_inj. }
    by destruct Hza as [-> | ->], Hzb as [-> | ->].
  - apply Prim2SF_inj in Heq as <-.
    unfold qFuzzyCompare. rewrite (FloatFacts.sub_diag_finite a Ha), qMin_same.
    change (abs 0 * 1000000000000)%float with 0%float.
    rewrite leb_spec, abs_spec. change (Prim2SF 0) with (S754_zero false).
    rewrite is_finite_spec in Ha.
    by destruct (Prim2SF a) as [[]|[]| |[] m e].
Qed.

(** [std::min] and [std::max] of two finite doubles beyond the tolerance of
    [qFuzzyCompare] do not depend on the order of the two. *)
Lemma std_min_max_comm (a b : float) :
  is_finite a = true -> is_finite b = true -> qFuzzyCompare a b = false ->
  std_min a b = std_min b a /\ std_max a b = std_max b a.
Proof.
  intros Ha Hb Hf. unfold std_min, std_max. rewrite !ltb_spec. unfold SFltb.
  rewrite (SFcompare_antisym (Prim2SF a) (Prim2SF b)).
  destruct (SFcompare (Prim2SF a) (Prim2SF b)) as [[]|] eqn:Hc; simpl; try done.
  - by rewrite (qFuzzyCompare_equal a b Ha Hb Hc) in Hf.
  - rewrite is_finite_spec in Ha, Hb.
    by destruct (Prim2SF a) as [[]|[]| |[] ma ea], (Prim2SF b) as [[]|[]| |[] mb eb].
Qed.

(** X28. The rectangle of a diagonal does not depend on which end of the
    diagonal comes first: for two points of finite coordinates that pass the
    test of [create_rectangle], different x and different y by
    [qFuzzyCompare], the constructor builds the same shape from [p1], [p2]
    and from [p2], [p1]. *)
Theorem rectangle_diagonal_order (nm : string) (p1 p2 : QPointF) :
  finitePoint p1 = true -> finitePoint p2 = true ->
  sharesCoordinate p1 p2 = false ->
  RectangleShape_diagonal nm p1 p2 = RectangleShape_diagonal nm p2 p1.
Proof.
  unfold finitePoint, sharesCoordinate.
  intros [Hx1 Hy1]%andb_prop [Hx2 Hy2]%andb_prop [Hfx Hfy]%orb_false_elim.
  destruct (std_min_max_comm _ _ Hx1 Hx2 Hfx) as [Hminx Hmaxx].
  destruct (std_min_max_comm _ _ Hy1 Hy2 Hfy) as [Hminy Hmaxy].
  unfold RectangleShape_diagonal. cbv zeta.
  by rewrite Hminx, Hmaxx, Hminy, Hmaxy.
Qed.

Lemma rectangle_diagonal_order_witness :
  RectangleShape_diagonal "r1" (Pt 0 0) (Pt 3 4)
  = RectangleShape_diagonal "r1" (Pt 3 4) (Pt 0 0).
Proof.
  apply (rectangle_diagonal_order "r1" (Pt 0 0) (Pt 3 4)); reflexivity.
Defined.
